(** * LidarController: a shallow embedding of [LidarController.h]

    The controller drives up to eight LidarLite range finders that share one
    I2C bus.  The embedding keeps the shape of the C++ class: the controller's
    members ([lidars], [resetOngoing], [count]) and the caller-owned
    [LidarObject]s they point to form the state, every member function is a
    computation in a small state-and-failure monad, and the collaborators that
    live outside the class (the I2C layer, the timers, the stack) are an
    environment of oracles that answer from the history of interactions.
    Undefined behaviour of the C++ code (a slot that was never assigned, a
    dead pointer, a function that ends without its [return], an overflow of
    [int]) is the failure of the monad. *)

From stdpp Require Import base option list gmap.
From Stdlib Require Import ZArith Lia.

Local Open Scope Z_scope.

(** ** Constants of the header *)

Definition STATUS_REGISTER          : Z := 0x01.
Definition SIGNAL_STRENGTH_REGISTER : Z := 0x0e.
Definition MEASURED_VALUE_REGISTER  : Z := 0x8f.
Definition READ_SERIAL_REGISTERS    : Z := 0x96.
Definition CONTROL_REGISTER         : Z := 0x00.
Definition SERIAL1_REGISTER         : Z := 0x18.
Definition SERIAL2_REGISTER         : Z := 0x19.
Definition ADDRESS_REGISTER         : Z := 0x1a.
Definition PARTY_LINE_REGISTER      : Z := 0x1e.
Definition SCALE_VELOCITY_REGISTER  : Z := 0x45.
Definition OFFSET_REGISTER          : Z := 0x13.
Definition INITIATE_VALUE           : Z := 0x04.
Definition PARTY_LINE_OFF           : Z := 0x08.
Definition FACTORY_ADDRESS         : Z := 0x62.
Definition MAX_LIDARS               : nat := 8.
Definition MAX_NACKS                : Z := 10.

(** [uint8_t] values are integers taken modulo 256. *)
Definition u8 (z : Z) : Z := z mod 256.

(** ** The sensor object *)

(** Modelled from the spec: the enumeration [LIDAR_STATE] is declared in
    [LidarObject.h], which is not part of the sources; its seven members are
    the case labels of [spinOnce] (the spec's AWAITING_RESET, RESET_IN_FLIGHT,
    POWERING_DOWN, NEEDS_CONFIGURE, ACQUISITION_READY, ACQUISITION_PENDING and
    ACQUISITION_COMPLETE). *)
Inductive LIDAR_STATE : Set :=
  | NEED_RESET
  | RESET_PENDING
  | SHUTING_DOWN
  | NEED_CONFIGURE
  | ACQUISITION_READY
  | ACQUISITION_PENDING
  | ACQUISITION_DONE.

#[global] Instance LIDAR_STATE_eq_dec : EqDecision LIDAR_STATE.
Proof. solve_decision. Defined.

Module LidarObject.

(** Modelled from the spec: the class [LidarObject] is declared in
    [LidarObject.h], which is not part of the sources.  The fields are the
    ones the controller reads and writes; [powered] is the level of the
    power-enable pin that [on()] and [off()] drive, the distances and the
    fault counter are integers. *)
Record t : Set := mk {
  address       : Z;
  lidar_state   : LIDAR_STATE;
  distance      : Z;
  last_distance : Z;
  strength      : Z;
  nacksCount    : Z;
  powered       : bool
}.

Definition set_lidar_state (s : LIDAR_STATE) (o : t) : t :=
  mk (address o) s (distance o) (last_distance o) (strength o)
     (nacksCount o) (powered o).
Definition set_distance (d : Z) (o : t) : t :=
  mk (address o) (lidar_state o) d (last_distance o) (strength o)
     (nacksCount o) (powered o).
Definition set_last_distance (d : Z) (o : t) : t :=
  mk (address o) (lidar_state o) (distance o) d (strength o)
     (nacksCount o) (powered o).
Definition set_strength (s : Z) (o : t) : t :=
  mk (address o) (lidar_state o) (distance o) (last_distance o) s
     (nacksCount o) (powered o).
Definition set_nacksCount (n : Z) (o : t) : t :=
  mk (address o) (lidar_state o) (distance o) (last_distance o) (strength o)
     n (powered o).
Definition set_powered (b : bool) (o : t) : t :=
  mk (address o) (lidar_state o) (distance o) (last_distance o) (strength o)
     (nacksCount o) b.

End LidarObject.

(** A [LidarObject*]: the objects are owned by the caller and the controller
    only keeps their addresses, so two slots may hold the same object. *)
Definition ptr : Set := nat.

(** ** Interactions with the collaborators *)

Inductive Event : Set :=
  | EvIsOnline (addr : Z)
  | EvWrite (addr reg val : Z)
  | EvReadByte (addr reg : Z)
  | EvReadWord (addr reg : Z)
  | EvOn (p : ptr)
  | EvOff (p : ptr)
  | EvTimerUpdate (p : ptr)
  | EvCheckTimer (p : ptr)
  | EvNotify (p : ptr).

#[global] Instance Event_eq_dec : EqDecision Event.
Proof. solve_decision. Defined.

Definition is_bus_write (e : Event) : bool :=
  match e with EvWrite _ _ _ => true | _ => false end.

Definition is_bus_read (e : Event) : bool :=
  match e with EvReadByte _ _ | EvReadWord _ _ => true | _ => false end.

Definition is_register_access (e : Event) : bool :=
  is_bus_write e || is_bus_read e.

(** Modelled from the spec: the I2C layer ([I2CFunctions.h]) and the timer of
    [LidarObject] are not part of the sources.  Each operation answers from
    the history of interactions so far (oldest first), which leaves the bus
    and the clock unconstrained.  A read gets the caller's buffer and returns
    the no-acknowledge flag with the buffer as the layer leaves it; [stack]
    gives the indeterminate bytes of a buffer declared without initialiser.
    [wide_int] is the target the header is compiled for: [begin] has a branch
    for the ARM boards, where [int] has 32 bits, and one for the AVR boards,
    where it has 16. *)
Record Env : Type := {
  bus_isOnline  : list Event -> Z -> bool;
  bus_write     : list Event -> Z -> Z -> Z -> Z;
  bus_readByte  : list Event -> Z -> Z -> Z -> Z * Z;
  bus_readWord  : list Event -> Z -> Z -> Z * Z -> Z * (Z * Z);
  timer_elapsed : list Event -> ptr -> bool;
  stack         : list Event -> Z * Z;
  wide_int      : bool
}.

(** ** The type [int] *)

Definition int_bits (env : Env) : Z := if wide_int env then 32 else 16.

Definition INT_MIN (env : Env) : Z := - 2 ^ (int_bits env - 1).
Definition INT_MAX (env : Env) : Z := 2 ^ (int_bits env - 1) - 1.

(** The values [int] can hold. *)
Definition in_int (env : Env) (z : Z) : bool :=
  (INT_MIN env <=? z) && (z <=? INT_MAX env).

(** Conversion to [int] of a value that the unsigned type of the same width
    can hold: the value modulo [2 ^ int_bits], in two's complement. *)
Definition to_int (env : Env) (z : Z) : Z :=
  (z + 2 ^ (int_bits env - 1)) mod 2 ^ int_bits env - 2 ^ (int_bits env - 1).

(** ** The controller state *)

Record World : Type := mkWorld {
  heap         : gmap ptr LidarObject.t;  (* the caller's LidarObjects *)
  lidars       : list (option ptr);       (* LidarObject* lidars[MAX_LIDARS] *)
  resetOngoing : bool;
  count        : Z;                       (* uint8_t *)
  trace        : list Event
}.

Definition set_heap (h : gmap ptr LidarObject.t) (w : World) : World :=
  mkWorld h (lidars w) (resetOngoing w) (count w) (trace w).
Definition set_lidars (l : list (option ptr)) (w : World) : World :=
  mkWorld (heap w) l (resetOngoing w) (count w) (trace w).
Definition set_resetOngoing (b : bool) (w : World) : World :=
  mkWorld (heap w) (lidars w) b (count w) (trace w).
Definition set_count (c : Z) (w : World) : World :=
  mkWorld (heap w) (lidars w) (resetOngoing w) c (trace w).
Definition set_trace (t : list Event) (w : World) : World :=
  mkWorld (heap w) (lidars w) (resetOngoing w) (count w) t.

Arguments set_heap _ !_ /.
Arguments set_lidars _ !_ /.
Arguments set_resetOngoing _ !_ /.
Arguments set_count _ !_ /.
Arguments set_trace _ !_ /.

(** A freshly constructed controller: the pointer array is not initialised,
    [resetOngoing = false] and [count = 0]. *)
Definition init (h : gmap ptr LidarObject.t) : World :=
  mkWorld h (replicate MAX_LIDARS None) false 0 [].

(** ** The monad: state, and failure for undefined behaviour *)

Definition M (A : Type) : Type := World -> option (A * World).

Definition ret {A} (a : A) : M A := fun w => Some (a, w).

Definition bind {A B} (m : M A) (k : A -> M B) : M B :=
  fun w => match m w with
           | Some (a, w') => k a w'
           | None => None
           end.

Definition undefined {A} : M A := fun _ => None.
Definition get : M World := fun w => Some (w, w).
Definition modify (f : World -> World) : M unit := fun w => Some (tt, f w).

Declare Scope lidar_scope.
Delimit Scope lidar_scope with lidar.
Notation "'let*' x ':=' m 'in' k" := (bind m (fun x => k))
  (at level 10, x name, m at level 100, k at level 200) : lidar_scope.
Notation "m1 ;; m2" := (bind m1 (fun _ => m2))
  (at level 100, m2 at level 200, right associativity) : lidar_scope.
Local Open Scope lidar_scope.

Definition when (b : bool) (m : M unit) : M unit := if b then m else ret tt.

Fixpoint forEach {A} (l : list A) (body : A -> M unit) : M unit :=
  match l with
  | [] => ret tt
  | x :: l' => body x ;; forEach l' body
  end.

Definition emit (e : Event) : M unit :=
  modify (fun w => set_trace (trace w ++ [e]) w).

(** [lidars[Lidar]]: reading a slot outside the array, or one that was never
    assigned, is undefined. *)
Definition slot (Lidar : nat) : M ptr :=
  let* w := get in
  match lidars w !! Lidar with
  | Some (Some p) => ret p
  | _ => undefined
  end.

(** [lidars[Lidar]->field] as an r-value. *)
Definition load (Lidar : nat) : M LidarObject.t :=
  let* p := slot Lidar in
  let* w := get in
  match heap w !! p with
  | Some o => ret o
  | None => undefined
  end.

(** [lidars[Lidar]->field = ...]. *)
Definition store (Lidar : nat) (f : LidarObject.t -> LidarObject.t) : M unit :=
  let* p := slot Lidar in
  let* w := get in
  match heap w !! p with
  | Some o => modify (set_heap (<[p := f o]> (heap w)))
  | None => undefined
  end.

(** ** The member functions of [LidarController] *)

Module LidarController.
Section Controller.

Variable env : Env.

(** *** Collaborators *)

(** Modelled from the spec: [I2C.isOnline], [I2C.write], [I2C.readByte] and
    [I2C.readWord] of [I2CFunctions.h].  Each call asks the environment at
    the current history and is recorded in it; flags and bytes are
    [uint8_t]. *)
Definition I2C_isOnline (addr : Z) : M bool :=
  let* w := get in
  emit (EvIsOnline addr) ;;
  ret (bus_isOnline env (trace w) addr).

Definition I2C_write (addr reg val : Z) : M Z :=
  let* w := get in
  emit (EvWrite addr reg val) ;;
  ret (u8 (bus_write env (trace w) addr reg val)).

Definition I2C_readByte (addr reg : Z) (buf : Z) : M (Z * Z) :=
  let* w := get in
  emit (EvReadByte addr reg) ;;
  let r := bus_readByte env (trace w) addr reg buf in
  ret (u8 (fst r), u8 (snd r)).

Definition I2C_readWord (addr reg : Z) (buf : Z * Z) : M (Z * (Z * Z)) :=
  let* w := get in
  emit (EvReadWord addr reg) ;;
  let r := bus_readWord env (trace w) addr reg buf in
  ret (u8 (fst r), (u8 (fst (snd r)), u8 (snd (snd r)))).

(** A two-byte array declared without initialiser: its bytes are whatever
    the stack holds. *)
Definition uninitialised : M (Z * Z) :=
  let* w := get in
  let g := stack env (trace w) in
  ret (u8 (fst g), u8 (snd g)).

(** Modelled from the spec: the methods of [LidarObject] the controller
    calls.  [on()] and [off()] drive the power-enable pin, [timerUpdate()]
    arms the timer and [checkTimer()] asks whether it has elapsed,
    [resetNacksCount()] clears the fault counter and [notify_distance()]
    publishes the reading. *)
Definition on (Lidar : nat) : M unit :=
  let* p := slot Lidar in
  store Lidar (LidarObject.set_powered true) ;;
  emit (EvOn p).

Definition off (Lidar : nat) : M unit :=
  let* p := slot Lidar in
  store Lidar (LidarObject.set_powered false) ;;
  emit (EvOff p).

Definition timerUpdate (Lidar : nat) : M unit :=
  let* p := slot Lidar in
  load Lidar ;;
  emit (EvTimerUpdate p).

Definition checkTimer (Lidar : nat) : M bool :=
  let* p := slot Lidar in
  load Lidar ;;
  let* w := get in
  emit (EvCheckTimer p) ;;
  ret (timer_elapsed env (trace w) p).

Definition resetNacksCount (Lidar : nat) : M unit :=
  store Lidar (LidarObject.set_nacksCount 0).

Definition notify_distance (Lidar : nat) : M unit :=
  let* p := slot Lidar in
  load Lidar ;;
  emit (EvNotify p).

(** *** Arithmetic on [int] *)

(** The result of a signed operation: an overflow is undefined. *)
Definition int_of (z : Z) : M Z :=
  if in_int env z then ret z else undefined.

(** The macro [abs(x)] of [Arduino.h], which is [((x)>0?(x):-(x))]. *)
Definition abs_int (x : Z) : M Z :=
  if 0 <? x then ret x else int_of (- x).

(** *** The class *)

Definition setState (Lidar : nat) (_lidar_state : LIDAR_STATE) : M unit :=
  store Lidar (LidarObject.set_lidar_state _lidar_state).

Definition getState (Lidar : nat) : M LIDAR_STATE :=
  let* o := load Lidar in
  ret (LidarObject.lidar_state o).

Definition resetLidar (Lidar : nat) : M unit :=
  off Lidar ;;
  timerUpdate Lidar ;;
  setState Lidar SHUTING_DOWN.

Definition add (_Lidar : ptr) (_id : nat) : M bool :=
  if bool_decide (MAX_LIDARS <= _id)%nat then ret false
  else
    modify (fun w => set_lidars (<[_id := Some _Lidar]> (lidars w)) w) ;;
    resetLidar _id ;;
    modify (fun w => set_count (u8 (count w + 1)) w) ;;
    ret true.

Definition getCount : M Z :=
  let* w := get in
  ret (count w).

Definition shouldIncrementNack (Lidar : nat) (nack : Z) : M Z :=
  when (negb (nack =? 0))
    (store Lidar (fun o =>
       LidarObject.set_nacksCount (LidarObject.nacksCount o + 1) o)) ;;
  ret nack.

(** [configure]: one write chosen by the preset; any other preset number
    writes nothing. *)
Definition configure (Lidar : nat) (configuration : Z) : M unit :=
  let* nack :=
    (if configuration =? 0 then
       let* o := load Lidar in
       I2C_write (LidarObject.address o) CONTROL_REGISTER 0x00
     else if configuration =? 1 then
       let* o := load Lidar in
       I2C_write (LidarObject.address o) 0x04 0x00
     else if configuration =? 2 then
       let* o := load Lidar in
       I2C_write (LidarObject.address o) 0x1c 0x20
     else if configuration =? 3 then
       let* o := load Lidar in
       I2C_write (LidarObject.address o) 0x1c 0x60
     else ret 0) in
  shouldIncrementNack Lidar nack ;;
  ret tt.

Definition changeAddress (Lidar : nat) : M Z :=
  let* o := load Lidar in
  let _lidar_new := LidarObject.address o in
  let* online := I2C_isOnline 0x62 in
  if negb online then
    shouldIncrementNack Lidar 1 ;;
    ret 6
  else
  let* occupied := I2C_isOnline _lidar_new in
  if occupied then
    shouldIncrementNack Lidar 1 ;;
    ret 5
  else
  let* buf := uninitialised in
  let* r := I2C_readWord 0x62 0x96 buf in
  let serialNumber := snd r in
  shouldIncrementNack Lidar (fst r) ;;
  let* n1 := I2C_write 0x62 0x18 (fst serialNumber) in
  let* n1 := shouldIncrementNack Lidar n1 in
  if negb (n1 =? 0) then ret 1 else
  let* n2 := I2C_write 0x62 0x19 (snd serialNumber) in
  let* n2 := shouldIncrementNack Lidar n2 in
  if negb (n2 =? 0) then ret 2 else
  let* n3 := I2C_write 0x62 0x1a _lidar_new in
  let* n3 := shouldIncrementNack Lidar n3 in
  if negb (n3 =? 0) then ret 3 else
  let* n4 := I2C_write 0x62 0x1e 0x08 in
  let* n4 := shouldIncrementNack Lidar n4 in
  if negb (n4 =? 0) then ret 4 else
  ret 0.

Definition status (Lidar : nat) : M Z :=
  let data := 171 in
  let* o := load Lidar in
  let* r := I2C_readByte (LidarObject.address o) 0x01 data in
  shouldIncrementNack Lidar (fst r) ;;
  ret (snd r).

(** [async] is declared [uint8_t], and its comment promises "the nack
    error", but its body ends without a [return]: the execution flows off
    the end of a function that returns a value, which is undefined. *)
Definition async (Lidar : nat) : M Z :=
  let* o := load Lidar in
  let* nack := I2C_write (LidarObject.address o) CONTROL_REGISTER 0x04 in
  shouldIncrementNack Lidar nack ;;
  undefined.

(** [distance]: the pair is the value written through [data] and the
    returned flag.  The two bytes are promoted to [int]: the shifted high
    byte is converted to [int], which makes it negative from 0x80 on when
    [int] has 16 bits, and the low byte is added to it. *)
Definition distance (Lidar : nat) : M (Z * Z) :=
  let* distanceArray := uninitialised in
  let* o := load Lidar in
  let* r := I2C_readWord (LidarObject.address o) MEASURED_VALUE_REGISTER
              distanceArray in
  let nackCatcher := fst r in
  shouldIncrementNack Lidar nackCatcher ;;
  let* distance :=
    int_of (to_int env (Z.shiftl (fst (snd r)) 8) + snd (snd r)) in
  ret (distance, nackCatcher).

(** [signalStrength]: the pair is the byte left in the caller's buffer and
    the returned flag. *)
Definition signalStrength (Lidar : nat) (signalStrengthArray : Z)
  : M (Z * Z) :=
  let* o := load Lidar in
  let* r := I2C_readByte (LidarObject.address o) SIGNAL_STRENGTH_REGISTER
              signalStrengthArray in
  shouldIncrementNack Lidar (fst r) ;;
  ret (snd r, fst r).

Definition setOffset (Lidar : nat) (data : Z) : M unit :=
  let* o := load Lidar in
  I2C_write (LidarObject.address o) OFFSET_REGISTER data ;;
  ret tt.

Definition scale (Lidar : nat) (velocityScaling : Z) : M unit :=
  let* o := load Lidar in
  I2C_write (LidarObject.address o) SCALE_VELOCITY_REGISTER velocityScaling ;;
  ret tt.

(** [distanceAndAsync]: the pair is the value left in [data] and the
    returned flag, which is the one of the first read. *)
Definition distanceAndAsync (Lidar : nat) : M (Z * Z) :=
  let* r := distance Lidar in
  let nackCatcher := snd r in
  let* data :=
    (if negb (nackCatcher =? 0) then
       let* r' := distance Lidar in
       ret (fst r')
     else ret (fst r)) in
  async Lidar ;;
  ret (data, nackCatcher).

Definition preReset (Lidar : nat) : M unit :=
  modify (set_resetOngoing true) ;;
  on Lidar ;;
  timerUpdate Lidar.

Definition postReset (Lidar : nat) : M unit :=
  changeAddress Lidar ;;
  modify (set_resetOngoing false).

Definition checkNacks (Lidar : nat) : M bool :=
  let* o := load Lidar in
  if MAX_NACKS <? LidarObject.nacksCount o then
    resetNacksCount Lidar ;;
    ret true
  else ret false.

(** The [switch] of [spinOnce] for slot [i]. *)
Definition spinOnce_case (i : nat) : M unit :=
  let strength := 0 in
  let* st := getState i in
  match st with
  | NEED_CONFIGURE =>
      configure i 2 ;;
      setState i ACQUISITION_READY
  | ACQUISITION_READY =>
      async i ;;
      setState i ACQUISITION_PENDING
  | ACQUISITION_PENDING =>
      let* s := status i in
      if negb (Z.testbit s 0) then
        let* r := distance i in
        let data := fst r in
        let* o := load i in
        let* difference := int_of (data - LidarObject.distance o) in
        let* gap := abs_int difference in
        when ((100 <? gap) || ((data <? 4) || (1000 <? data)))
          (shouldIncrementNack i 1 ;; ret tt) ;;
        store i (fun o =>
          LidarObject.set_last_distance (LidarObject.distance o) o) ;;
        store i (LidarObject.set_distance data) ;;
        setState i ACQUISITION_DONE
      else ret tt
  | ACQUISITION_DONE =>
      let* r := signalStrength i strength in
      store i (LidarObject.set_strength (fst r)) ;;
      notify_distance i ;;
      setOffset i 0x00 ;;
      setState i ACQUISITION_READY
  | NEED_RESET =>
      let* w := get in
      if negb (resetOngoing w) then
        preReset i ;;
        setState i RESET_PENDING
      else ret tt
  | RESET_PENDING =>
      let* elapsed := checkTimer i in
      if elapsed then
        postReset i ;;
        setState i NEED_CONFIGURE
      else ret tt
  | SHUTING_DOWN =>
      let* elapsed := checkTimer i in
      if elapsed then
        postReset i ;;
        setState i NEED_RESET
      else ret tt
  end.

(** The body of the [for] loop of [spinOnce]. *)
Definition spinOnce_body (i : nat) : M unit :=
  spinOnce_case i ;;
  let* reset := checkNacks i in
  when reset (resetLidar i).

Definition spinOnce : M unit :=
  let* w := get in
  forEach (seq 0 (Z.to_nat (count w))) spinOnce_body.

End Controller.
End LidarController.

Import LidarController.

(** ** Vocabulary of the statements *)

(** Slot [i] of the controller in [w] points to the live object [o] at [p]. *)
Definition holds (w : World) (i : nat) (p : ptr) (o : LidarObject.t) : Prop :=
  lidars w !! i = Some (Some p) /\ heap w !! p = Some o.

(** The registry is well formed: the first [count] slots point to live
    objects, and to pairwise different ones. *)
Definition registered (w : World) : Prop :=
  (forall i, (i < Z.to_nat (count w))%nat -> exists p o, holds w i p o) /\
  (forall i j p, (i < Z.to_nat (count w))%nat -> (j < Z.to_nat (count w))%nat ->
     lidars w !! i = Some (Some p) -> lidars w !! j = Some (Some p) -> i = j).

(** What one failed transaction adds to the fault counter. *)
Definition counted (nack : Z) : Z := if nack =? 0 then 0 else 1.

(** The object after [checkNacks] has fired and [resetLidar] has run. *)
Definition forced_reset (o : LidarObject.t) : LidarObject.t :=
  LidarObject.set_lidar_state SHUTING_DOWN
    (LidarObject.set_powered false (LidarObject.set_nacksCount 0 o)).

(** The object after the fault check that closes an iteration of the loop. *)
Definition after_fault_check (o : LidarObject.t) : LidarObject.t :=
  if MAX_NACKS <? LidarObject.nacksCount o then forced_reset o else o.

(** The world after that fault check, run in [w1] where the slot's object
    at [p] is [o1]. *)
Definition fault_checked (p : ptr) (o1 : LidarObject.t) (w1 : World) : World :=
  mkWorld (<[p := after_fault_check o1]> (heap w1)) (lidars w1)
    (resetOngoing w1) (count w1)
    (trace w1 ++ (if MAX_NACKS <? LidarObject.nacksCount o1
                  then [EvOff p; EvTimerUpdate p] else [])).

(** The edges of the lifecycle, one per [case] of the [switch]. *)
Inductive edge : LIDAR_STATE -> LIDAR_STATE -> Prop :=
  | edge_shut_down : edge SHUTING_DOWN NEED_RESET
  | edge_power_up  : edge NEED_RESET RESET_PENDING
  | edge_readdress : edge RESET_PENDING NEED_CONFIGURE
  | edge_configure : edge NEED_CONFIGURE ACQUISITION_READY
  | edge_start     : edge ACQUISITION_READY ACQUISITION_PENDING
  | edge_measured  : edge ACQUISITION_PENDING ACQUISITION_DONE
  | edge_published : edge ACQUISITION_DONE ACQUISITION_READY.

(** The states whose case waits for a condition. *)
Definition waiting (s : LIDAR_STATE) : Prop :=
  s = SHUTING_DOWN \/ s = NEED_RESET \/ s = RESET_PENDING
  \/ s = ACQUISITION_PENDING.

(** One edge, or none where the state waits. *)
Definition advance (s s' : LIDAR_STATE) : Prop :=
  edge s s' \/ (waiting s /\ s' = s).

(** The validation rule on a fresh reading [d] against the stored one. *)
Definition suspect (d stored : Z) : Prop :=
  Z.abs (d - stored) > 100 \/ d < 4 \/ d > 1000.

(** The big-endian word in a two-byte buffer, and the [int] that
    [distance] makes of it. *)
Definition word (buf : Z * Z) : Z := 256 * fst buf + snd buf.

Definition composed (env : Env) (buf : Z * Z) : Z :=
  to_int env (Z.shiftl (fst buf) 8) + snd buf.

(** The difference of a reading [d] and the stored distance is one that
    [int] holds, and so is its absolute value. *)
Definition safe_difference (env : Env) (d stored : Z) : Prop :=
  INT_MIN env < d - stored <= INT_MAX env.

Definition suspectb (d stored : Z) : bool :=
  (100 <? Z.abs (d - stored)) || ((d <? 4) || (1000 <? d)).

Section Answers.

Variable env : Env.

(** The flag a register write gets at history [t]. *)
Definition write_flag (t : list Event) (addr reg val : Z) : Z :=
  u8 (bus_write env t addr reg val).


(** What a byte read and a word read answer at history [t]: the flag and
    the buffer as the bus layer leaves it.  The word is read into a buffer
    declared without initialiser. *)
Definition byte_read (t : list Event) (addr reg buf : Z) : Z * Z :=
  let r := bus_readByte env t addr reg buf in
  (u8 (fst r), u8 (snd r)).

Definition word_read (t : list Event) (addr reg : Z) : Z * (Z * Z) :=
  let r := bus_readWord env t addr reg
             (u8 (fst (stack env t)), u8 (snd (stack env t))) in
  (u8 (fst r), (u8 (fst (snd r)), u8 (snd (snd r)))).

(** The history when [changeAddress] reads the identifier word, and the
    answer to that read. *)
Definition serial_history (w : World) (o : LidarObject.t) : list Event :=
  trace w ++ [EvIsOnline FACTORY_ADDRESS; EvIsOnline (LidarObject.address o)].

Definition serial_read (w : World) (o : LidarObject.t) : Z * (Z * Z) :=
  word_read (serial_history w o) FACTORY_ADDRESS READ_SERIAL_REGISTERS.

(** The answer [status] gets in [w]; its buffer holds 171 before. *)
Definition status_read (w : World) (o : LidarObject.t) : Z * Z :=
  byte_read (trace w) (LidarObject.address o) STATUS_REGISTER 171.

(** The history when the case ACQUISITION_PENDING reads the distance word
    after the status byte, and the answer to that read. *)
Definition distance_history (w : World) (o : LidarObject.t) : list Event :=
  trace w ++ [EvReadByte (LidarObject.address o) STATUS_REGISTER].

Definition distance_read (w : World) (o : LidarObject.t) : Z * (Z * Z) :=
  word_read (distance_history w o) (LidarObject.address o)
    MEASURED_VALUE_REGISTER.

End Answers.

(** The case of the state of [o], run in [w], has a defined result: the
    state is not ACQUISITION_READY, whose case calls [async], and when the
    case reads a distance word the comparison with the stored distance does
    not overflow. *)
Definition case_defined_at (env : Env) (w : World) (o : LidarObject.t)
  : Prop :=
  LidarObject.lidar_state o <> ACQUISITION_READY
  /\ (LidarObject.lidar_state o = ACQUISITION_PENDING ->
      Z.testbit (snd (status_read env w o)) 0 = false ->
      safe_difference env (composed env (snd (distance_read env w o)))
        (LidarObject.distance o)).

(** The same whatever the history is when the case runs. *)
Definition defined_case (env : Env) (o : LidarObject.t) : Prop :=
  LidarObject.lidar_state o <> ACQUISITION_READY
  /\ (LidarObject.lidar_state o = ACQUISITION_PENDING ->
      forall t,
        safe_difference env
          (composed env
             (snd (word_read env t (LidarObject.address o)
                     MEASURED_VALUE_REGISTER)))
          (LidarObject.distance o)).

(** Every registered sensor is in a state whose case is defined. *)
Definition defined_tick (env : Env) (w : World) : Prop :=
  forall i p o, (i < Z.to_nat (count w))%nat -> holds w i p o ->
    defined_case env o.

(** The controller [w] once the fault counter of the object [o] at [p] is
    [n] and the history is [t]. *)
Definition counted_at (w : World) (p : ptr) (o : LidarObject.t) (n : Z)
    (t : list Event) : World :=
  mkWorld (<[p := LidarObject.set_nacksCount n o]> (heap w)) (lidars w)
    (resetOngoing w) (count w) t.



(** How far a state is from SHUTING_DOWN along the lifecycle. *)
Definition rank (s : LIDAR_STATE) : nat :=
  match s with
  | SHUTING_DOWN => 0
  | NEED_RESET => 1
  | RESET_PENDING => 2
  | NEED_CONFIGURE => 3
  | ACQUISITION_READY => 4
  | ACQUISITION_PENDING => 5
  | ACQUISITION_DONE => 6
  end.

(** [n] calls of the loop entry point. *)
Fixpoint ticks (env : Env) (n : nat) : M unit :=
  match n with
  | O => ret tt
  | S n' => spinOnce env ;; ticks env n'
  end.

(** A sequence of registration calls, with the result of each. *)
Fixpoint adds (calls : list (ptr * nat)) : M (list bool) :=
  match calls with
  | [] => ret []
  | (p, id) :: calls' =>
      let* b := add p id in
      let* bs := adds calls' in
      ret (b :: bs)
  end.

(** The slots of the successful calls among [calls]. *)
Definition accepted_slots (calls : list (ptr * nat)) : list nat :=
  List.filter (fun id => id <? MAX_LIDARS)%nat (map snd calls).

(** The registered slots whose sensor is powered while in a reset phase. *)
Definition in_reset_powered (o : LidarObject.t) : bool :=
  LidarObject.powered o
  && (bool_decide (LidarObject.lidar_state o = RESET_PENDING)
      || bool_decide (LidarObject.lidar_state o = SHUTING_DOWN)).

Definition reset_powered_slots (w : World) : list nat :=
  List.filter
    (fun i =>
       match lidars w !! i with
       | Some (Some p) =>
           match heap w !! p with
           | Some o => in_reset_powered o
           | None => false
           end
       | _ => false
       end)
    (seq 0 (Z.to_nat (count w))).

(** The register and value [configure] writes for a preset, if any. *)
Definition preset (configuration : Z) : option (Z * Z) :=
  if configuration =? 0 then Some (CONTROL_REGISTER, 0x00)
  else if configuration =? 1 then Some (0x04, 0x00)
  else if configuration =? 2 then Some (0x1c, 0x20)
  else if configuration =? 3 then Some (0x1c, 0x60)
  else None.

(** The states in which [resetLidar] has switched the sensor off and
    [preReset] has not yet switched it on again. *)
Definition switched_off (s : LIDAR_STATE) : bool :=
  match s with
  | SHUTING_DOWN | NEED_RESET => true
  | _ => false
  end.

(** The power pin agrees with the lifecycle state. *)
Definition power_consistent (o : LidarObject.t) : Prop :=
  LidarObject.powered o = negb (switched_off (LidarObject.lidar_state o)).

(** A bus transaction addressed to [addr] or to the factory address; the
    other interactions are not bus transactions. *)
Definition on_bus_of (addr : Z) (e : Event) : bool :=
  match e with
  | EvIsOnline a | EvWrite a _ _ | EvReadByte a _ | EvReadWord a _ =>
      (a =? addr) || (a =? FACTORY_ADDRESS)
  | _ => true
  end.

(** Registrations of the objects [ps] into the slots 0, 1, 2, ... in
    order. *)
Definition in_order (ps : list ptr) : list (ptr * nat) :=
  zip ps (seq 0 (length ps)).

(** ** Concrete sensors, buses and clocks *)

Module Scenario.

(** A sensor object as its owner hands it over: target address [addr],
    no reading yet. *)
Definition sensor (addr : Z) : LidarObject.t :=
  LidarObject.mk addr NEED_RESET 0 0 0 0 false.

(** A sensor waiting for its measurement, the stored distance being
    [stored] and the fault counter [nacks]. *)
Definition measuring (addr stored nacks : Z) : LidarObject.t :=
  LidarObject.mk addr ACQUISITION_PENDING stored 0 0 nacks true.

(** A configured sensor whose acquisition is to be started. *)
Definition ready (addr nacks : Z) : LidarObject.t :=
  LidarObject.mk addr ACQUISITION_READY 0 0 0 nacks true.

(** A sensor waiting for the settle delay after power-up. *)
Definition settling (addr nacks : Z) : LidarObject.t :=
  LidarObject.mk addr RESET_PENDING 0 0 0 nacks true.

(** A controller whose slot 0 holds the object [o] at pointer 0. *)
Definition single (o : LidarObject.t) : World :=
  mkWorld {[ 0%nat := o ]} (Some 0%nat :: replicate 7 None) false 1 [].

(** Two caller-owned sensors, at pointers 0 and 1. *)
Definition two_sensors : gmap ptr LidarObject.t :=
  {[ 0%nat := sensor 0x64; 1%nat := sensor 0x66 ]}.

(** The number of timer checks made so far. *)
Definition timer_checks (t : list Event) : nat :=
  length (List.filter
            (fun e => match e with EvCheckTimer _ => true | _ => false end)
            t).

(** A clock that answers the successive timer checks from a script, and
    "not yet" once the script is exhausted. *)
Definition scripted_clock (script : list bool) (t : list Event) (_ : ptr)
  : bool :=
  nth (timer_checks t) script false.

(** A bus on which the addresses in [online] answer the probe, every write
    is acknowledged, a byte read answers [rb] and a word read [rw]; the
    stack holds [garbage].  The board is an AVR one. *)
Definition bus (online : Z -> bool) (rb : Z -> Z * Z)
    (rw : Z * Z -> Z * (Z * Z)) (clock : list Event -> ptr -> bool)
    (garbage : Z * Z) : Env :=
  {| bus_isOnline  := fun _ addr => online addr;
     bus_write     := fun _ _ _ _ => 0;
     bus_readByte  := fun _ _ _ buf => rb buf;
     bus_readWord  := fun _ _ _ buf => rw buf;
     timer_elapsed := clock;
     stack         := fun _ => garbage;
     wide_int      := false |}.

(** A read that is not acknowledged and leaves the buffer alone. *)
Definition nack_byte (buf : Z) : Z * Z := (1, buf).
Definition nack_word (buf : Z * Z) : Z * (Z * Z) := (1, buf).

(** A bus on which nothing answers and nothing is acknowledged, every timer
    having elapsed; the board is an AVR one. *)
Definition unplugged : Env :=
  {| bus_isOnline  := fun _ _ => false;
     bus_write     := fun _ _ _ _ => 1;
     bus_readByte  := fun _ _ _ buf => (1, buf);
     bus_readWord  := fun _ _ _ buf => (1, buf);
     timer_elapsed := fun _ _ => true;
     stack         := fun _ => (0, 0);
     wide_int      := false |}.

(** The environment [e] on an ARM board. *)
Definition on_arm (e : Env) : Env :=
  {| bus_isOnline  := bus_isOnline e;
     bus_write     := bus_write e;
     bus_readByte  := bus_readByte e;
     bus_readWord  := bus_readWord e;
     timer_elapsed := timer_elapsed e;
     stack         := stack e;
     wide_int      := true |}.

(** Nothing answers: no device online, no read acknowledged. *)
Definition dead_bus (clock : list Event -> ptr -> bool) : Env :=
  bus (fun _ => false) nack_byte nack_word clock (0, 0).

(** The factory address answers, the identifier read is not acknowledged
    and the stack holds 0xAB 0xCD. *)
Definition deaf_serial : Env :=
  bus (fun addr => addr =? FACTORY_ADDRESS) nack_byte nack_word
    (scripted_clock []) (0xAB, 0xCD).

(** The sensor reports "not busy" and the distance word [hi], [lo]. *)
Definition ranging (hi lo : Z) : Env :=
  bus (fun _ => false) (fun _ => (0, 0)) (fun _ => (0, (hi, lo)))
    (scripted_clock []) (0, 0).

(** The sensor reports "not busy", the distance read is not acknowledged
    and the stack holds [hi], [lo]. *)
Definition deaf_distance (hi lo : Z) : Env :=
  bus (fun _ => false) (fun _ => (0, 0)) nack_word
    (scripted_clock []) (hi, lo).

(** Two sensors registered one after the other; the shut-down delay of
    the first has elapsed at the first tick and that of the second at the
    second tick, and the settle delay of the first has not elapsed at the
    third. *)
Definition staggered : Env :=
  dead_bus (scripted_clock [true; false; true; false]).

Definition staggered_run (n : nat) : option (unit * World) :=
  (add 0%nat 0 ;; add 1%nat 1 ;; ticks staggered n) (init two_sensors).

(** A sensor that answers: the factory address is online and the target
    address free, every timer has elapsed when it is checked, the status
    byte is 0 and the distance word is 0x01F4. *)
Definition healthy : Env :=
  bus (fun addr => addr =? FACTORY_ADDRESS) (fun _ => (0, 0))
    (fun _ => (0, (0x01, 0xF4))) (fun _ _ => true) (0, 0).

(** The state, power and distance of the sensor in slot 0 after one
    registration and [n] calls of [spinOnce] with that sensor. *)
Definition lifecycle (n : nat) : option (LIDAR_STATE * bool * Z) :=
  match (add 0%nat 0 ;; ticks healthy n) (init two_sensors) with
  | Some (_, w) =>
      match heap w !! 0%nat with
      | Some o => Some (LidarObject.lidar_state o, LidarObject.powered o,
                        LidarObject.distance o)
      | None => None
      end
  | None => None
  end.

(** The bus writes of a run of [changeAddress], with its result. *)
Definition writes_of (r : Z * World) : Z * list Event :=
  (fst r, List.filter is_bus_write (trace (snd r))).

(** The state and the power of the sensor in slot [i]. *)
Definition sensor_view (i : nat) (w : World) : option (LIDAR_STATE * bool) :=
  match lidars w !! i with
  | Some (Some p) =>
      match heap w !! p with
      | Some o => Some (LidarObject.lidar_state o, LidarObject.powered o)
      | None => None
      end
  | _ => None
  end.

(** Nine registrations into slot 0, followed by [getCount]. *)
Definition nine_calls : list (ptr * nat) := replicate 9 (0%nat, 0%nat).

Definition nine_registrations : M (list bool * Z) :=
  let* results := adds nine_calls in
  let* n := getCount in
  ret (results, n).

(** A sensor whose measurement has been read and awaits publication. *)
Definition measured (addr d : Z) : LidarObject.t :=
  LidarObject.mk addr ACQUISITION_DONE d 0 0 0 true.

(** A controller whose slots 0 and 1 hold the objects at pointers 0 and 1. *)
Definition pair (oa ob : LidarObject.t) : World :=
  mkWorld {[ 0%nat := oa; 1%nat := ob ]}
    (Some 0%nat :: Some 1%nat :: replicate 6 None) false 2 [].

(** A controller with one registration, made into slot 5. *)
Definition gapped : World :=
  mkWorld two_sensors (replicate 5 None ++ Some 0%nat :: replicate 2 None)
    false 1 [].

(** The controller [single (settling 0x64 0)] after a call of
    [changeAddress] with the sensor [healthy]. *)
Definition after_full_protocol : World :=
  mkWorld {[ 0%nat := settling 0x64 0 ]} (Some 0%nat :: replicate 7 None)
    false 1
    [EvIsOnline 0x62; EvIsOnline 0x64; EvReadWord 0x62 0x96;
     EvWrite 0x62 0x18 0x01; EvWrite 0x62 0x19 0xF4;
     EvWrite 0x62 0x1a 0x64; EvWrite 0x62 0x1e 0x08].

End Scenario.

(** ** Symbolic execution of the member functions *)

Section Execution.

Context {A B C : Type}.

Lemma bind_ret (a : A) (k : A -> M B) w : bind (ret a) k w = k a w.
Proof. reflexivity. Qed.

Lemma bind_bind (m : M A) (k1 : A -> M B) (k2 : B -> M C) w :
  bind (bind m k1) k2 w = bind m (fun a => bind (k1 a) k2) w.
Proof. unfold bind. destruct (m w) as [[a w']|]; reflexivity. Qed.

Lemma bind_get (k : World -> M B) w : bind get k w = k w w.
Proof. reflexivity. Qed.

Lemma bind_modify f (k : unit -> M B) w : bind (modify f) k w = k tt (f w).
Proof. reflexivity. Qed.

Lemma bind_emit e (k : unit -> M B) w :
  bind (emit e) k w = k tt (set_trace (trace w ++ [e]) w).
Proof. reflexivity. Qed.

Lemma bind_undefined (k : A -> M B) w : bind undefined k w = None.
Proof. reflexivity. Qed.

End Execution.

Section Access.

Context {B : Type}.

Lemma bind_slot i (k : ptr -> M B) w p :
  lidars w !! i = Some (Some p) -> bind (slot i) k w = k p w.
Proof. intros H. unfold slot, bind, get. rewrite H. reflexivity. Qed.

Lemma bind_load i (k : LidarObject.t -> M B) w p o :
  holds w i p o -> bind (load i) k w = k o w.
Proof.
  intros [Hl Hh]. unfold load. rewrite bind_bind, (bind_slot _ _ _ p Hl).
  unfold bind, get. rewrite Hh. reflexivity.
Qed.

Lemma bind_store i f (k : unit -> M B) w p o :
  holds w i p o ->
  bind (store i f) k w = k tt (set_heap (<[p := f o]> (heap w)) w).
Proof.
  intros [Hl Hh]. unfold store. rewrite bind_bind, (bind_slot _ _ _ p Hl).
  unfold bind, get. rewrite Hh. reflexivity.
Qed.

End Access.

Lemma bind_run {A B} (m : M A) (k : A -> M B) w a w' :
  m w = Some (a, w') -> bind m k w = k a w'.
Proof. intros H. unfold bind. by rewrite H. Qed.

Lemma run_as_bind {A} (m : M A) w : m w = bind m ret w.
Proof. unfold bind, ret. destruct (m w) as [[a w']|]; reflexivity. Qed.

(** Facts on [int] *)

Lemma in_int_spec env z :
  in_int env z = true <-> INT_MIN env <= z <= INT_MAX env.
Proof. unfold in_int. rewrite andb_true_iff, !Z.leb_le. tauto. Qed.

Lemma u8_range z : 0 <= u8 z < 256.
Proof. unfold u8. apply Z.mod_pos_bound. lia. Qed.

Lemma to_int_shifted env a :
  0 <= a < 256 ->
  to_int env (Z.shiftl a 8)
  = if wide_int env || (a <? 128) then 256 * a else 256 * a - 65536.
Proof.
  intros Ha. unfold to_int, int_bits. rewrite Z.shiftl_mul_pow2 by lia.
  destruct (wide_int env); cbn [orb].
  - change (2 ^ (32 - 1)) with 2147483648.
    change (2 ^ 32) with 4294967296. change (2 ^ 8) with 256.
    rewrite Z.mod_small by lia. lia.
  - change (2 ^ (16 - 1)) with 32768.
    change (2 ^ 16) with 65536. change (2 ^ 8) with 256.
    destruct (a <? 128) eqn:Hlt.
    + apply Z.ltb_lt in Hlt. rewrite Z.mod_small by lia. lia.
    + apply Z.ltb_ge in Hlt.
      replace (a * 256 + 32768) with (a * 256 - 32768 + 1 * 65536) by lia.
      rewrite Z.mod_add by lia. rewrite Z.mod_small by lia. lia.
Qed.

Lemma composed_fits env a b :
  in_int env (to_int env (Z.shiftl (u8 a) 8) + u8 b) = true.
Proof.
  pose proof (u8_range a) as Ha. pose proof (u8_range b) as Hb.
  apply in_int_spec. rewrite to_int_shifted by exact Ha.
  unfold INT_MIN, INT_MAX, int_bits.
  destruct (wide_int env); cbn [orb].
  - change (2 ^ (32 - 1)) with 2147483648. lia.
  - change (2 ^ (16 - 1)) with 32768.
    destruct (u8 a <? 128) eqn:Hlt.
    + apply Z.ltb_lt in Hlt. lia.
    + apply Z.ltb_ge in Hlt. lia.
Qed.

Lemma composed_spec env buf :
  0 <= fst buf < 256 ->
  composed env buf
  = if wide_int env || (fst buf <? 128) then word buf else word buf - 65536.
Proof.
  intros Ha. unfold composed, word. rewrite to_int_shifted by exact Ha.
  destruct (wide_int env || (fst buf <? 128)); lia.
Qed.

Lemma holds_intro h l r c t i p o :
  l !! i = Some (Some p) -> h !! p = Some o ->
  holds (mkWorld h l r c t) i p o.
Proof. split; assumption. Qed.

Lemma world_eq h h' l r c t t' :
  h = h' -> t = t' -> mkWorld h l r c t = mkWorld h' l r c t'.
Proof. by intros -> ->. Qed.

Lemma result_eq {A} (a a' : A) (w w' : World) :
  a = a' -> w = w' -> Some (a, w) = Some (a', w').
Proof. by intros -> ->. Qed.

Ltac solve_holds :=
  apply holds_intro;
  [ eassumption
  | first [ eassumption | apply lookup_insert_eq ] ].

Ltac unfold_members :=
  unfold spinOnce_body, spinOnce_case, checkNacks, postReset, preReset,
    setOffset, signalStrength, distance, async, status, changeAddress,
    abs_int, int_of,
    configure, shouldIncrementNack, getCount, add, resetLidar, getState,
    setState, notify_distance, resetNacksCount, checkTimer, timerUpdate,
    off, on, uninitialised, I2C_readWord, I2C_readByte, I2C_write,
    I2C_isOnline, when.

Ltac norm_world :=
  cbn [heap lidars resetOngoing count trace set_heap set_lidars
       set_resetOngoing set_count set_trace fst snd negb
       LidarObject.address LidarObject.lidar_state LidarObject.distance
       LidarObject.last_distance LidarObject.strength LidarObject.nacksCount
       LidarObject.powered
       LidarObject.set_nacksCount LidarObject.set_lidar_state
       LidarObject.set_powered LidarObject.set_distance
       LidarObject.set_last_distance LidarObject.set_strength];
  repeat match goal with
         | |- context [Z.pos ?a =? Z.pos ?b] =>
             let v := eval vm_compute in (Z.pos a =? Z.pos b) in
             change (Z.pos a =? Z.pos b) with v
         | |- context [Z.pos ?a =? 0] => change (Z.pos a =? 0) with false
         | |- context [0 =? 0] => change (0 =? 0) with true
         end;
  cbn [negb];
  rewrite ?insert_insert_eq, <- ?app_assoc, ?composed_fits;
  cbn [app].

Ltac exec_step :=
  first
    [ rewrite bind_bind
    | rewrite bind_ret
    | rewrite bind_get
    | rewrite bind_modify
    | rewrite bind_emit
    | rewrite bind_undefined
    | erewrite bind_slot by (simpl; eassumption)
    | erewrite bind_load by solve_holds
    | erewrite bind_store by solve_holds ];
  norm_world.

(** Tests already decided by a hypothesis. *)
Ltac known_test :=
  match goal with
  | H : ?b = true |- context [if ?b then _ else _] => rewrite H
  | H : ?b = false |- context [if ?b then _ else _] => rewrite H
  | H : ?b = true |- context [negb ?b] => rewrite H
  | H : ?b = false |- context [negb ?b] => rewrite H
  end; norm_world.

Ltac exec := norm_world; repeat first [ exec_step | known_test ].

(** Case analysis on the next test the execution is stuck on. *)
Ltac split_test :=
  match goal with
  | |- context [bind (if negb ?b then _ else _) _ _] => destruct b eqn:?
  | |- context [bind (if ?b then _ else _) _ _] => destruct b eqn:?
  end; exec.

Lemma set_nacksCount_same o n :
  n = LidarObject.nacksCount o -> LidarObject.set_nacksCount n o = o.
Proof. intros ->. by destruct o. Qed.

(** Equality of two worlds that differ in the object at one pointer. *)
Ltac solve_field :=
  repeat match goal with
         | H : ?b = _ |- context [if ?b then _ else _] => rewrite H
         end;
  try change (0 =? 0) with true;
  repeat match goal with
         | |- context [Z.pos ?q =? 0] => change (Z.pos q =? 0) with false
         end;
  cbv iota;
  lia.

Ltac solve_object :=
  unfold counted, forced_reset, LidarObject.set_nacksCount,
    LidarObject.set_lidar_state, LidarObject.set_powered,
    LidarObject.set_distance, LidarObject.set_last_distance,
    LidarObject.set_strength;
  cbn [LidarObject.address LidarObject.lidar_state LidarObject.distance
       LidarObject.last_distance LidarObject.strength LidarObject.nacksCount
       LidarObject.powered];
  f_equal; solve_field.

Ltac solve_heap :=
  lazymatch goal with
  | |- <[_ := _]> _ = <[_ := _]> _ => f_equal; solve_object
  | |- ?h = <[?p := _]> ?h =>
      symmetry; apply insert_id;
      match goal with H : h !! p = Some ?o |- _ =>
        rewrite H; f_equal;
        first [ reflexivity
              | symmetry; apply set_nacksCount_same; unfold counted;
                solve_field ]
      end
  end.

Ltac solve_trace :=
  rewrite <- ?app_assoc; cbn [app];
  lazymatch goal with
  | |- ?t = ?t ++ _ => symmetry; apply app_nil_r
  | |- _ => reflexivity
  end.

Ltac solve_world :=
  unfold ret; apply result_eq;
  [ try reflexivity | apply world_eq; [ solve_heap | solve_trace ] ].

Ltac obj_simpl :=
  cbn [LidarObject.address LidarObject.lidar_state LidarObject.distance
       LidarObject.last_distance LidarObject.strength LidarObject.nacksCount
       LidarObject.powered
       LidarObject.set_nacksCount LidarObject.set_lidar_state
       LidarObject.set_powered LidarObject.set_distance
       LidarObject.set_last_distance LidarObject.set_strength].

Ltac open_world :=
  cbn [heap lidars resetOngoing count trace fst snd app] in *.

Ltac unfold_consts :=
  unfold STATUS_REGISTER, SIGNAL_STRENGTH_REGISTER, MEASURED_VALUE_REGISTER,
    READ_SERIAL_REGISTERS, CONTROL_REGISTER, SERIAL1_REGISTER,
    SERIAL2_REGISTER, ADDRESS_REGISTER, PARTY_LINE_REGISTER,
    SCALE_VELOCITY_REGISTER, OFFSET_REGISTER, INITIATE_VALUE, PARTY_LINE_OFF,
    FACTORY_ADDRESS, MAX_NACKS in *.

Ltac run := rewrite run_as_bind; unfold_members; unfold_consts; exec.

(** ** Address reassignment *)

Section ChangeAddress.

Variable env : Env.

(** Outcome of [changeAddress] when the factory address does not answer. *)
Lemma changeAddress_offline w Lidar p o :
  holds w Lidar p o ->
  bus_isOnline env (trace w) FACTORY_ADDRESS = false ->
  changeAddress env Lidar w =
    Some (6, mkWorld
               (<[p := LidarObject.set_nacksCount
                         (LidarObject.nacksCount o + 1) o]> (heap w))
               (lidars w) (resetOngoing w) (count w)
               (trace w ++ [EvIsOnline FACTORY_ADDRESS])).
Proof.
  destruct w as [h l r c t]. intros [Hl Hh] Hoff. open_world.
  run. reflexivity.
Qed.


End ChangeAddress.

(** ** Status and distance *)

Lemma counted_range nack : 0 <= counted nack <= 1.
Proof. unfold counted. destruct (nack =? 0); lia. Qed.

Lemma suspectb_spec d stored : suspectb d stored = true <-> suspect d stored.
Proof.
  unfold suspectb, suspect.
  rewrite !orb_true_iff, !Z.ltb_lt. lia.
Qed.

(** The test of the validation rule as the code computes it, on either
    side of the [abs] macro. *)
Lemma suspectb_positive d stored :
  (0 <? d - stored) = true ->
  suspectb d stored = (100 <? d - stored) || ((d <? 4) || (1000 <? d)).
Proof.
  intros Hpos. apply Z.ltb_lt in Hpos. unfold suspectb.
  by rewrite Z.abs_eq by lia.
Qed.

Lemma suspectb_negative d stored :
  (0 <? d - stored) = false ->
  suspectb d stored = (100 <? - (d - stored)) || ((d <? 4) || (1000 <? d)).
Proof.
  intros Hneg. apply Z.ltb_ge in Hneg. unfold suspectb.
  by rewrite Z.abs_neq by lia.
Qed.

Lemma safe_difference_fits env d stored :
  safe_difference env d stored ->
  in_int env (d - stored) = true /\ in_int env (- (d - stored)) = true.
Proof.
  unfold safe_difference. intros Hsafe.
  split; apply in_int_spec; unfold INT_MIN, INT_MAX in *; lia.
Qed.

Lemma unsafe_difference_overflows env d stored :
  ~ safe_difference env d stored ->
  in_int env (d - stored) = false
  \/ ((0 <? d - stored) = false /\ in_int env (- (d - stored)) = false).
Proof.
  unfold safe_difference. intros Hunsafe.
  destruct (in_int env (d - stored)) eqn:Hfit; [ right | by left ].
  apply in_int_spec in Hfit.
  assert (Hmin : d - stored = INT_MIN env) by lia.
  assert (Hpow : 0 < 2 ^ (int_bits env - 1)).
  { apply Z.pow_pos_nonneg; [ lia | ]. unfold int_bits.
    destruct (wide_int env); lia. }
  split.
  - apply Z.ltb_ge. rewrite Hmin. unfold INT_MIN. lia.
  - apply not_true_iff_false. intros Hneg. apply in_int_spec in Hneg.
    rewrite Hmin in Hneg. unfold INT_MIN, INT_MAX in Hneg. lia.
Qed.

Section Acquisition.

Variable env : Env.

Lemma status_run w i p o :
  holds w i p o ->
  status env i w =
    Some (snd (status_read env w o),
          mkWorld
            (<[p := LidarObject.set_nacksCount
                      (LidarObject.nacksCount o
                       + counted (fst (status_read env w o))) o]> (heap w))
            (lidars w) (resetOngoing w) (count w)
            (trace w ++ [EvReadByte (LidarObject.address o) STATUS_REGISTER])).
Proof.
  destruct w as [h l r c t]. intros [Hl Hh].
  unfold status_read, byte_read. open_world.
  run. split_test; solve_world.
Qed.

(** [distance] never overflows: the sum of the shifted high byte and the
    low byte is a value of [int]. *)
Lemma distance_run w i p o :
  holds w i p o ->
  let r := word_read env (trace w) (LidarObject.address o)
             MEASURED_VALUE_REGISTER in
  distance env i w =
    Some ((composed env (snd r), fst r),
          mkWorld
            (<[p := LidarObject.set_nacksCount
                      (LidarObject.nacksCount o + counted (fst r)) o]>
               (heap w))
            (lidars w) (resetOngoing w) (count w)
            (trace w ++ [EvReadWord (LidarObject.address o)
                           MEASURED_VALUE_REGISTER])).
Proof.
  destruct w as [h l r c t]. intros [Hl Hh].
  unfold word_read, composed. open_world.
  run. split_test; solve_world.
Qed.

(** ACQUISITION_PENDING with the busy flag set: the case is [status]
    alone. *)
Lemma case_pending_wait w i p o :
  holds w i p o ->
  LidarObject.lidar_state o = ACQUISITION_PENDING ->
  Z.testbit (snd (status_read env w o)) 0 = true ->
  spinOnce_case env i w =
    Some (tt,
          mkWorld
            (<[p := LidarObject.set_nacksCount
                      (LidarObject.nacksCount o
                       + counted (fst (status_read env w o))) o]> (heap w))
            (lidars w) (resetOngoing w) (count w)
            (trace w ++ [EvReadByte (LidarObject.address o) STATUS_REGISTER])).
Proof.
  destruct w as [h l r c t]. intros [Hl Hh] Hst Hbit.
  unfold status_read, byte_read in *. open_world.
  run. rewrite Hst. exec. split_test; solve_world.
Qed.

(** ACQUISITION_PENDING with the busy flag clear: the distance word is
    read, judged, and stored. *)
Lemma case_pending_done w i p o :
  holds w i p o ->
  LidarObject.lidar_state o = ACQUISITION_PENDING ->
  Z.testbit (snd (status_read env w o)) 0 = false ->
  let d := composed env (snd (distance_read env w o)) in
  safe_difference env d (LidarObject.distance o) ->
  spinOnce_case env i w =
    Some (tt,
          mkWorld
            (<[p := LidarObject.set_lidar_state ACQUISITION_DONE
                      (LidarObject.set_distance d
                         (LidarObject.set_last_distance
                            (LidarObject.distance o)
                            (LidarObject.set_nacksCount
                               (LidarObject.nacksCount o
                                + counted (fst (status_read env w o))
                                + counted (fst (distance_read env w o))
                                + (if suspectb d (LidarObject.distance o)
                                   then 1 else 0)) o)))]> (heap w))
            (lidars w) (resetOngoing w) (count w)
            (trace w ++ [EvReadByte (LidarObject.address o) STATUS_REGISTER;
                         EvReadWord (LidarObject.address o)
                           MEASURED_VALUE_REGISTER])).
Proof.
  destruct w as [h l r c t]. intros [Hl Hh] Hst Hbit d Hsafe.
  destruct (safe_difference_fits env _ _ Hsafe) as [Hfit Hfit'].
  destruct (0 <? d - LidarObject.distance o) eqn:Hpos;
    [ rewrite (suspectb_positive _ _ Hpos)
    | rewrite (suspectb_negative _ _ Hpos) ];
    subst d;
    unfold status_read, distance_read, distance_history, byte_read,
      word_read, composed in *; open_world;
    run; rewrite Hst; exec; repeat split_test; solve_world.
Qed.

(** The same case when the comparison overflows. *)
Lemma case_pending_overflow w i p o :
  holds w i p o ->
  LidarObject.lidar_state o = ACQUISITION_PENDING ->
  Z.testbit (snd (status_read env w o)) 0 = false ->
  ~ safe_difference env (composed env (snd (distance_read env w o)))
      (LidarObject.distance o) ->
  spinOnce_case env i w = None.
Proof.
  destruct w as [h l r c t]. intros [Hl Hh] Hst Hbit Hunsafe.
  destruct (unsafe_difference_overflows env _ _ Hunsafe)
    as [Hfit | [Hpos Hfit]];
    unfold status_read, distance_read, distance_history, byte_read,
      word_read, composed in *; open_world;
    run; rewrite Hst; exec; repeat split_test; reflexivity.
Qed.

(** ACQUISITION_READY: the case calls [async], which does not return. *)
Lemma case_ready_undefined w i p o :
  holds w i p o ->
  LidarObject.lidar_state o = ACQUISITION_READY ->
  spinOnce_case env i w = None.
Proof.
  destruct w as [h l r c t]. intros [Hl Hh] Hst. open_world.
  run. rewrite Hst. exec. split_test; reflexivity.
Qed.

End Acquisition.


(** ** One iteration of the loop *)

Ltac solve_advance Hst :=
  norm_world; rewrite ?Hst; unfold advance, waiting;
  first [ left; constructor | right; split; [ tauto | reflexivity ] ].

Ltac case_leaf o :=
  lazymatch goal with
  | |- exists _ _ _,
        ret tt (mkWorld (<[_ := ?o1]> _) _ ?r1 _ (_ ++ ?evs)) = _ /\ _ =>
      exists o1, r1, evs; split; [ reflexivity | ]
  | |- exists _ _ _, ret tt (mkWorld _ _ ?r1 _ (_ ++ ?evs)) = _ /\ _ =>
      exists o, r1, evs; split; [ solve_world | ]
  | |- exists _ _ _, ret tt (mkWorld _ _ ?r1 _ _) = _ /\ _ =>
      exists o, r1, []; split; [ solve_world | ]
  end.

Ltac solve_on_bus :=
  repeat (apply Forall_cons; split;
          [ cbn [on_bus_of]; unfold FACTORY_ADDRESS;
            rewrite ?Z.eqb_refl, ?orb_true_r; reflexivity | ]);
  apply Forall_nil; exact I.

Lemma defined_case_at env w o : defined_case env o -> case_defined_at env w o.
Proof.
  intros [Hready Hsafe]. split; [ exact Hready | ].
  intros Hst _. apply (Hsafe Hst).
Qed.

Lemma case_defined_at_dec env w o :
  case_defined_at env w o \/ ~ case_defined_at env w o.
Proof.
  unfold case_defined_at, safe_difference.
  destruct (decide (LidarObject.lidar_state o = ACQUISITION_READY));
    [ right; tauto | ].
  destruct (decide (LidarObject.lidar_state o = ACQUISITION_PENDING));
    [ | left; tauto ].
  destruct (Z.testbit (snd (status_read env w o)) 0);
    [ left; split; [ done | intros _ Hbit; discriminate Hbit ] | ].
  match goal with
  | |- (_ /\ (_ -> _ -> ?a < ?x <= ?b)) \/ _ =>
      destruct (decide (a < x <= b)); [ left; tauto | right; tauto ]
  end.
Qed.

Section Iteration.

Variable env : Env.

(** Whatever the collaborators answer, a case that is defined touches the
    slot's object only, moves its state along at most one edge, adds at
    most 3 to its fault counter and never lowers it, keeps its target
    address and the agreement of the power pin with the state, and talks on
    the bus to the sensor's own address or the factory address only. *)
Lemma spinOnce_case_spec w i p o :
  holds w i p o ->
  case_defined_at env w o ->
  exists o1 r1 evs,
    spinOnce_case env i w =
      Some (tt, mkWorld (<[p := o1]> (heap w)) (lidars w) r1 (count w)
                  (trace w ++ evs))
    /\ advance (LidarObject.lidar_state o) (LidarObject.lidar_state o1)
    /\ LidarObject.nacksCount o <= LidarObject.nacksCount o1
       <= LidarObject.nacksCount o + 3
    /\ LidarObject.address o1 = LidarObject.address o
    /\ (power_consistent o -> power_consistent o1)
    /\ Forall (fun e => on_bus_of (LidarObject.address o) e = true) evs.
Proof.
  intros Hholds [Hready Hsafe].
  destruct (decide (LidarObject.lidar_state o = ACQUISITION_PENDING))
    as [Hst | Hother].
  - destruct (Z.testbit (snd (status_read env w o)) 0) eqn:Hbit.
    + rewrite (case_pending_wait env w i p o Hholds Hst Hbit).
      eexists _, _, _. split; [ reflexivity | ].
      pose proof (counted_range (fst (status_read env w o))).
      unfold power_consistent. obj_simpl. rewrite Hst.
      split; [ right; unfold waiting; tauto | ].
      split; [ lia | ]. split; [ reflexivity | ]. split; [ done | ].
      solve_on_bus.
    + rewrite (case_pending_done env w i p o Hholds Hst Hbit
                 (Hsafe Hst eq_refl)).
      eexists _, _, _. split; [ reflexivity | ].
      pose proof (counted_range (fst (status_read env w o))).
      pose proof (counted_range (fst (distance_read env w o))).
      unfold power_consistent. obj_simpl. rewrite Hst.
      split; [ left; constructor | ].
      split; [ destruct (suspectb _ _); lia | ].
      split; [ reflexivity | ]. split; [ done | ].
      solve_on_bus.
  - destruct w as [h l r c t]. destruct Hholds as [Hl Hh]. open_world.
    run. destruct (LidarObject.lidar_state o) eqn:Hst; try congruence; exec.
    all: repeat split_test.
    all: case_leaf o.
    all: split; [ solve_advance Hst | ].
    all: unfold power_consistent; norm_world; rewrite ?Hst.
    all: split; [ lia | ].
    all: split; [ reflexivity | ].
    all: split;
      [ cbn [switched_off negb]; intros Hpow;
        first [ exact Hpow | reflexivity ]
      | ].
    all: solve_on_bus.
Qed.

(** A case that is not defined has no result. *)
Lemma spinOnce_case_undefined w i p o :
  holds w i p o ->
  ~ case_defined_at env w o ->
  spinOnce_case env i w = None.
Proof.
  intros Hholds Hnot.
  destruct (decide (LidarObject.lidar_state o = ACQUISITION_READY))
    as [Hready | Hready]; [ by eapply case_ready_undefined | ].
  destruct (decide (LidarObject.lidar_state o = ACQUISITION_PENDING))
    as [Hst | Hst].
  - destruct (Z.testbit (snd (status_read env w o)) 0) eqn:Hbit.
    + exfalso. apply Hnot. split; [ exact Hready | ].
      intros _ Hclear. congruence.
    + eapply case_pending_overflow; [ exact Hholds | exact Hst | exact Hbit | ].
      intros Hsafe. apply Hnot. split; [ exact Hready | ]. by intros _ _.
  - exfalso. apply Hnot. split; [ exact Hready | ]. by intros Hpending.
Qed.

(** The fault check that closes the iteration. *)
Lemma fault_check_run w1 i p o1 :
  holds w1 i p o1 ->
  (let* reset := checkNacks i in when reset (resetLidar i)) w1 =
    Some (tt, fault_checked p o1 w1).
Proof.
  destruct w1 as [h l r c t]. intros [Hl Hh].
  unfold fault_checked, after_fault_check. open_world.
  run. split_test; solve_world.
Qed.

Lemma spinOnce_body_run w i p w1 o1 :
  spinOnce_case env i w = Some (tt, w1) ->
  holds w1 i p o1 ->
  spinOnce_body env i w = Some (tt, fault_checked p o1 w1).
Proof.
  intros Hcase Hholds. unfold spinOnce_body.
  unfold bind at 1. rewrite Hcase. by apply fault_check_run.
Qed.

Lemma spinOnce_body_undefined w i :
  spinOnce_case env i w = None -> spinOnce_body env i w = None.
Proof. intros Hcase. unfold spinOnce_body, bind. by rewrite Hcase. Qed.

(** RESET_PENDING and SHUTING_DOWN once the timer has elapsed: the case
    is [changeAddress], the release of the latch and the state change. *)
Lemma case_reset_elapsed w i p o next code w' o' :
  holds w i p o ->
  (LidarObject.lidar_state o = RESET_PENDING /\ next = NEED_CONFIGURE)
  \/ (LidarObject.lidar_state o = SHUTING_DOWN /\ next = NEED_RESET) ->
  timer_elapsed env (trace w) p = true ->
  changeAddress env i (set_trace (trace w ++ [EvCheckTimer p]) w)
    = Some (code, w') ->
  holds w' i p o' ->
  spinOnce_case env i w =
    Some (tt, set_heap (<[p := LidarObject.set_lidar_state next o']> (heap w'))
                (set_resetOngoing false w')).
Proof.
  destruct w as [h l r c t], w' as [h' l' r' c' t'].
  intros [Hl Hh] Hst Hel Hca [Hl' Hh']. open_world.
  rewrite run_as_bind.
  unfold spinOnce_case, getState, checkTimer, postReset, setState.
  exec.
  destruct Hst as [[Hst ->] | [Hst ->]]; rewrite Hst; exec;
    (erewrite bind_run by exact Hca); exec; reflexivity.
Qed.

(** Summary of one iteration for the loop: only the object of slot [i]
    changes. *)
Lemma spinOnce_body_spec w i p o :
  holds w i p o ->
  case_defined_at env w o ->
  exists o1 w1,
    spinOnce_case env i w = Some (tt, w1)
    /\ holds w1 i p o1
    /\ spinOnce_body env i w = Some (tt, fault_checked p o1 w1)
    /\ heap (fault_checked p o1 w1)
       = <[p := after_fault_check o1]> (heap w)
    /\ lidars w1 = lidars w /\ count w1 = count w
    /\ advance (LidarObject.lidar_state o) (LidarObject.lidar_state o1)
    /\ LidarObject.nacksCount o <= LidarObject.nacksCount o1
       <= LidarObject.nacksCount o + 3
    /\ LidarObject.address o1 = LidarObject.address o
    /\ (power_consistent o -> power_consistent o1)
    /\ exists evs,
         trace w1 = trace w ++ evs
         /\ Forall (fun e => on_bus_of (LidarObject.address o) e = true) evs.
Proof.
  intros Hholds Hdef.
  destruct (spinOnce_case_spec w i p o Hholds Hdef)
    as (o1 & r1 & evs & Hcase & Hadv & Hn & Haddr & Hpow & Hbus).
  destruct Hholds as [Hl Hh].
  eexists o1, _. split; [ exact Hcase | ].
  assert (Hholds1 : holds (mkWorld (<[p := o1]> (heap w)) (lidars w) r1
                             (count w) (trace w ++ evs)) i p o1).
  { split; [ exact Hl | apply lookup_insert_eq ]. }
  split; [ exact Hholds1 | ].
  split; [ by eapply spinOnce_body_run | ].
  cbn [fault_checked heap lidars count trace].
  rewrite insert_insert_eq.
  repeat (split; [ first [ assumption | reflexivity ] | ]).
  exists evs. split; [ reflexivity | exact Hbus ].
Qed.

(** An iteration that has a result ran a case that is defined. *)
Lemma spinOnce_body_defined w i p o u w' :
  holds w i p o ->
  spinOnce_body env i w = Some (u, w') ->
  case_defined_at env w o.
Proof.
  intros Hholds Hrun.
  destruct (case_defined_at_dec env w o) as [Hdef | Hnot]; [ exact Hdef | ].
  rewrite (spinOnce_body_undefined w i) in Hrun; [ discriminate Hrun | ].
  by eapply spinOnce_case_undefined.
Qed.

End Iteration.

(** ** The loop over the registry *)

Lemma forEach_app {A} (l1 l2 : list A) (body : A -> M unit) w :
  forEach (l1 ++ l2) body w
  = bind (forEach l1 body) (fun _ => forEach l2 body) w.
Proof.
  revert w. induction l1 as [| x l1 IH]; intros w; cbn [forEach app].
  - reflexivity.
  - rewrite bind_bind. unfold bind at 1 2.
    destruct (body x w) as [[[] w1] |]; [ apply IH | reflexivity ].
Qed.

Lemma seq_split (i n : nat) :
  (i < n)%nat -> seq 0 n = seq 0 i ++ i :: seq (S i) (n - S i).
Proof.
  intros Hi. replace n with (i + S (n - S i))%nat at 1 by lia.
  rewrite seq_app. reflexivity.
Qed.

Lemma registered_frame w w' :
  registered w ->
  lidars w' = lidars w -> count w' = count w ->
  (forall q, is_Some (heap w !! q) -> is_Some (heap w' !! q)) ->
  registered w'.
Proof.
  intros [Hlive Hinj] Hl Hc Hdom. split.
  - intros i Hi. rewrite Hc in Hi.
    destruct (Hlive i Hi) as (p & o & Hp & Ho).
    destruct (Hdom p) as [o' Ho']; [ by eexists | ].
    exists p, o'. split; [ by rewrite Hl | exact Ho' ].
  - intros i j p. rewrite Hc, Hl. apply Hinj.
Qed.

Section Loop.

Variable env : Env.

(** One iteration on a well-formed registry, when it has a result: the
    registry is kept and the objects of all other registered slots are as
    they were. *)
Lemma spinOnce_body_frame w i w' :
  registered w ->
  (i < Z.to_nat (count w))%nat ->
  spinOnce_body env i w = Some (tt, w') ->
  registered w'
  /\ lidars w' = lidars w /\ count w' = count w
  /\ (forall j p o, (j < Z.to_nat (count w))%nat -> j <> i ->
        holds w j p o -> holds w' j p o)
  /\ (forall j p o, (j < Z.to_nat (count w))%nat -> j <> i ->
        holds w' j p o -> holds w j p o).
Proof.
  intros [Hlive Hinj] Hi Hrun.
  destruct (Hlive i Hi) as (p & o & Hholds).
  pose proof (spinOnce_body_defined env w i p o tt w' Hholds Hrun) as Hdef.
  destruct (spinOnce_body_spec env w i p o Hholds Hdef)
    as (o1 & w1 & _ & _ & Hbody & Hheap & Hl1 & Hc1 & _).
  rewrite Hrun in Hbody. injection Hbody as ->.
  assert (Hl2 : lidars (fault_checked p o1 w1) = lidars w) by exact Hl1.
  assert (Hc2 : count (fault_checked p o1 w1) = count w) by exact Hc1.
  assert (Hother : forall j q, (j < Z.to_nat (count w))%nat -> j <> i ->
            lidars w !! j = Some (Some q) -> q <> p).
  { intros j q Hj Hji Hjl ->. apply Hji.
    destruct Hholds as [Hil _]. by apply (Hinj j i p). }
  split.
  { apply (registered_frame w); [ by split | done | done | ].
    intros q Hq. rewrite Hheap.
    destruct (decide (p = q)) as [-> | Hne].
    - rewrite lookup_insert_eq. by eexists.
    - by rewrite lookup_insert_ne. }
  split; [ exact Hl2 | ]. split; [ exact Hc2 | ].
  split.
  - intros j q oq Hj Hji [Hjl Hjh].
    split; [ by rewrite Hl2 | ].
    rewrite Hheap, lookup_insert_ne; [ exact Hjh | ].
    intros <-. by apply (Hother j p).
  - intros j q oq Hj Hji [Hjl Hjh]. rewrite Hl2 in Hjl.
    split; [ exact Hjl | ].
    rewrite Hheap, lookup_insert_ne in Hjh; [ exact Hjh | ].
    intros <-. by apply (Hother j p).
Qed.

(** The same for the iterations of the slots [slots]. *)
Lemma forEach_body_frame (slots : list nat) :
  forall w w',
    registered w ->
    (forall i, i ∈ slots -> (i < Z.to_nat (count w))%nat) ->
    forEach slots (spinOnce_body env) w = Some (tt, w') ->
    registered w'
    /\ lidars w' = lidars w /\ count w' = count w
    /\ (forall j p o, (j < Z.to_nat (count w))%nat -> j ∉ slots ->
          holds w j p o -> holds w' j p o).
Proof.
  induction slots as [| i slots IH]; intros w w' Hreg Hlt Hrun.
  - cbn [forEach] in Hrun. injection Hrun as <-. auto.
  - cbn [forEach] in Hrun. unfold bind in Hrun.
    destruct (spinOnce_body env i w) as [[[] w2] |] eqn:Hbody;
      [ | discriminate Hrun ].
    destruct (spinOnce_body_frame w i w2 Hreg) as (Hreg2 & Hl2 & Hc2 & Hkeep2 & _);
      [ apply Hlt; left | exact Hbody | ].
    destruct (IH w2 w' Hreg2) as (Hreg' & Hl' & Hc' & Hkeep');
      [ intros j Hj; rewrite Hc2; apply Hlt; by right | exact Hrun | ].
    split; [ exact Hreg' | ].
    split; [ congruence | ]. split; [ congruence | ].
    intros j q oq Hj Hnotin Hholds.
    apply not_elem_of_cons in Hnotin as [Hji Hnotin].
    apply Hkeep'; [ by rewrite Hc2 | exact Hnotin | ].
    by apply Hkeep2.
Qed.

(** Running the body over distinct slots [slots] of a well-formed registry
    whose cases are defined has a result. *)
Lemma forEach_body_spec (slots : list nat) :
  forall w,
    registered w ->
    NoDup slots ->
    (forall i, i ∈ slots -> (i < Z.to_nat (count w))%nat) ->
    (forall i p o, i ∈ slots -> holds w i p o -> defined_case env o) ->
    exists w',
      forEach slots (spinOnce_body env) w = Some (tt, w')
      /\ registered w'
      /\ lidars w' = lidars w /\ count w' = count w
      /\ (forall j p o, (j < Z.to_nat (count w))%nat -> j ∉ slots ->
            holds w j p o -> holds w' j p o).
Proof.
  induction slots as [| i slots IH]; intros w Hreg Hnd Hlt Hdef.
  - exists w. cbn [forEach]. unfold ret. auto.
  - apply NoDup_cons in Hnd as [Hfresh Hnd].
    destruct (proj1 Hreg i) as (p & o & Hholds); [ apply Hlt; left | ].
    assert (Hdef_i : case_defined_at env w o).
    { apply defined_case_at. apply (Hdef i p o); [ left | exact Hholds ]. }
    destruct (spinOnce_body_spec env w i p o Hholds Hdef_i)
      as (o1 & w1 & _ & _ & Hbody & _).
    set (w2 := fault_checked p o1 w1) in *.
    destruct (spinOnce_body_frame w i w2 Hreg)
      as (Hreg2 & Hl2 & Hc2 & Hkeep2 & Hback2);
      [ apply Hlt; left | exact Hbody | ].
    destruct (IH w2 Hreg2 Hnd) as (w' & Hrun & Hreg' & Hl' & Hc' & Hkeep').
    { intros j Hj. rewrite Hc2. apply Hlt. by right. }
    { intros j q oq Hj Hholds_j. apply (Hdef j q oq); [ by right | ].
      apply Hback2; [ apply Hlt; by right | | exact Hholds_j ].
      intros ->. by apply Hfresh. }
    exists w'. split.
    { cbn [forEach]. unfold bind. rewrite Hbody. exact Hrun. }
    split; [ exact Hreg' | ].
    split; [ congruence | ]. split; [ congruence | ].
    intros j q oq Hj Hnotin Hholds_j.
    apply not_elem_of_cons in Hnotin as [Hji Hnotin].
    apply Hkeep'; [ by rewrite Hc2 | exact Hnotin | ].
    by apply Hkeep2.
Qed.

(** One call of [spinOnce], seen from slot [i]: the earlier iterations
    leave the slot's object alone, the slot's own iteration is its case
    followed by the fault check, and the later iterations leave the result
    alone. *)
Lemma spinOnce_at w i p o :
  registered w ->
  defined_tick env w ->
  (i < Z.to_nat (count w))%nat ->
  holds w i p o ->
  exists w_pre o1 w_case w_end,
    forEach (seq 0 i) (spinOnce_body env) w = Some (tt, w_pre)
    /\ holds w_pre i p o
    /\ spinOnce_case env i w_pre = Some (tt, w_case)
    /\ holds w_case i p o1
    /\ spinOnce_body env i w_pre = Some (tt, fault_checked p o1 w_case)
    /\ spinOnce env w = Some (tt, w_end)
    /\ holds w_end i p (after_fault_check o1)
    /\ registered w_end
    /\ lidars w_end = lidars w /\ count w_end = count w
    /\ advance (LidarObject.lidar_state o) (LidarObject.lidar_state o1)
    /\ LidarObject.nacksCount o <= LidarObject.nacksCount o1
       <= LidarObject.nacksCount o + 3
    /\ LidarObject.address o1 = LidarObject.address o
    /\ (power_consistent o -> power_consistent o1).
Proof.
  intros Hreg Hdef Hi Hholds.
  set (n := Z.to_nat (count w)) in *.
  assert (Hsplit : seq 0 n = seq 0 i ++ i :: seq (S i) (n - S i))
    by (by apply seq_split).
  assert (Hall : exists w_end,
            forEach (seq 0 n) (spinOnce_body env) w = Some (tt, w_end)
            /\ lidars w_end = lidars w /\ count w_end = count w).
  { destruct (forEach_body_spec (seq 0 n) w Hreg)
      as (w_end & Hend & _ & Hl & Hc & _).
    - apply NoDup_seq.
    - intros j Hj. apply elem_of_seq in Hj. fold n. lia.
    - intros j q oq Hj Hjq. apply (Hdef j q oq); [ | exact Hjq ].
      apply elem_of_seq in Hj. fold n. lia.
    - by exists w_end. }
  destruct Hall as (w_end & Hend & Hl_end & Hc_end).
  rewrite Hsplit, forEach_app in Hend. unfold bind at 1 in Hend.
  destruct (forEach (seq 0 i) (spinOnce_body env) w) as [[[] w_pre] |]
    eqn:Hpre; [ | discriminate Hend ].
  cbn [forEach] in Hend. unfold bind at 1 in Hend.
  destruct (spinOnce_body env i w_pre) as [[[] w_post] |] eqn:Hbody;
    [ | discriminate Hend ].
  destruct (forEach_body_frame (seq 0 i) w w_pre Hreg)
    as (Hreg_pre & Hl_pre & Hc_pre & Hkeep_pre); [ | exact Hpre | ].
  { intros j Hj. apply elem_of_seq in Hj. fold n. lia. }
  assert (Hholds_pre : holds w_pre i p o).
  { apply Hkeep_pre; [ exact Hi | | exact Hholds ].
    intros Hin. apply elem_of_seq in Hin. lia. }
  pose proof (spinOnce_body_defined env w_pre i p o tt w_post
                Hholds_pre Hbody) as Hdef_i.
  destruct (spinOnce_body_spec env w_pre i p o Hholds_pre Hdef_i)
    as (o1 & w_case & Hcase & Hholds_case & Hbody' & Hheap & Hl1 & Hc1
        & Hadv & Hn & Haddr & Hpow & _).
  rewrite Hbody in Hbody'. injection Hbody' as ->.
  destruct (spinOnce_body_frame w_pre i (fault_checked p o1 w_case) Hreg_pre)
    as (Hreg_post & Hl_post & Hc_post & _);
    [ rewrite Hc_pre; exact Hi | exact Hbody | ].
  assert (Hholds_post :
            holds (fault_checked p o1 w_case) i p (after_fault_check o1)).
  { destruct Hholds_pre as [Hlp _]. split.
    - by rewrite Hl_post.
    - rewrite Hheap. apply lookup_insert_eq. }
  destruct (forEach_body_frame (seq (S i) (n - S i))
              (fault_checked p o1 w_case) w_end Hreg_post)
    as (Hreg_end & _ & _ & Hkeep_end); [ | exact Hend | ].
  { intros j Hj. apply elem_of_seq in Hj.
    rewrite Hc_post, Hc_pre. fold n. lia. }
  assert (Hholds_end : holds w_end i p (after_fault_check o1)).
  { apply Hkeep_end; [ | | exact Hholds_post ].
    - rewrite Hc_post, Hc_pre. exact Hi.
    - intros Hin. apply elem_of_seq in Hin. lia. }
  exists w_pre, o1, w_case, w_end.
  split; [ reflexivity | ].
  repeat (split; [ assumption | ]).
  split.
  { unfold spinOnce. rewrite bind_get. fold n.
    rewrite Hsplit, forEach_app. unfold bind at 1. rewrite Hpre.
    cbn [forEach]. unfold bind at 1. rewrite Hbody. exact Hend. }
  repeat (split; [ assumption | ]). exact Hpow.
Qed.

(** A call of [spinOnce] on a well-formed registry in which a registered
    sensor is in ACQUISITION_READY has no result. *)
Lemma spinOnce_ready_undefined w i p o :
  registered w ->
  (i < Z.to_nat (count w))%nat ->
  holds w i p o ->
  LidarObject.lidar_state o = ACQUISITION_READY ->
  spinOnce env w = None.
Proof.
  intros Hreg Hi Hholds Hst.
  unfold spinOnce. rewrite bind_get.
  rewrite (seq_split i _ Hi), forEach_app. unfold bind at 1.
  destruct (forEach (seq 0 i) (spinOnce_body env) w) as [[[] w_pre] |]
    eqn:Hpre; [ | reflexivity ].
  destruct (forEach_body_frame (seq 0 i) w w_pre Hreg)
    as (_ & _ & _ & Hkeep_pre); [ | exact Hpre | ].
  { intros j Hj. apply elem_of_seq in Hj. lia. }
  assert (Hholds_pre : holds w_pre i p o).
  { apply Hkeep_pre; [ exact Hi | | exact Hholds ].
    intros Hin. apply elem_of_seq in Hin. lia. }
  cbn [forEach]. unfold bind at 1.
  rewrite (spinOnce_body_undefined env w_pre i); [ reflexivity | ].
  by eapply case_ready_undefined.
Qed.

End Loop.

(** ** Registration *)

Lemma add_rejected (p : ptr) (id : nat) w :
  (MAX_LIDARS <= id)%nat -> add p id w = Some (false, w).
Proof. intros Hid. unfold add. by rewrite bool_decide_eq_true_2. Qed.

Lemma add_accepted (p : ptr) (id : nat) w o :
  (id < MAX_LIDARS)%nat ->
  length (lidars w) = MAX_LIDARS ->
  heap w !! p = Some o ->
  add p id w =
    Some (true,
          mkWorld
            (<[p := LidarObject.set_lidar_state SHUTING_DOWN
                      (LidarObject.set_powered false o)]> (heap w))
            (<[id := Some p]> (lidars w)) (resetOngoing w)
            (u8 (count w + 1))
            (trace w ++ [EvOff p; EvTimerUpdate p])).
Proof.
  destruct w as [h l r c t]. intros Hid Hlen Hp. open_world.
  assert (Hl : <[id := Some p]> l !! id = Some (Some p)).
  { apply list_lookup_insert_eq. lia. }
  unfold add. rewrite bool_decide_eq_false_2 by lia.
  run. reflexivity.
Qed.

Lemma adds_spec (calls : list (ptr * nat)) :
  forall w,
    length (lidars w) = MAX_LIDARS ->
    0 <= count w < 256 ->
    (forall p id, (p, id) ∈ calls -> is_Some (heap w !! p)) ->
    exists w',
      adds calls w
      = Some (map (fun c => bool_decide (snd c < MAX_LIDARS)%nat) calls, w')
      /\ count w'
         = (count w + Z.of_nat (length (accepted_slots calls))) mod 256.
Proof.
  induction calls as [| [p id] calls IH]; intros w Hlen Hcount Hlive.
  - exists w. split; [ reflexivity | ].
    cbn. rewrite Z.add_0_r. symmetry. by apply Z.mod_small.
  - destruct (decide (id < MAX_LIDARS)%nat) as [Hid | Hid].
    + destruct (Hlive p id) as [o Ho]; [ left | ].
      pose proof (add_accepted p id w o Hid Hlen Ho) as Hadd.
      set (w1 := mkWorld _ _ _ _ _) in Hadd.
      destruct (IH w1) as (w' & Hrun & Hc).
      { cbn [w1 lidars]. by rewrite length_insert. }
      { cbn [w1 count]. unfold u8. apply Z.mod_pos_bound. lia. }
      { intros q j Hq. cbn [w1 heap].
        destruct (decide (p = q)) as [-> | Hne].
        - rewrite lookup_insert_eq. by eexists.
        - rewrite lookup_insert_ne by done. apply (Hlive q j). by right. }
      exists w'. split.
      * cbn [adds map snd]. unfold bind at 1. rewrite Hadd.
        unfold bind at 1. rewrite Hrun.
        by rewrite bool_decide_eq_true_2.
      * rewrite Hc. cbn [w1 count]. unfold accepted_slots, u8.
        cbn [map snd List.filter].
        apply Nat.ltb_lt in Hid. rewrite Hid. cbn [length].
        rewrite Z.add_mod_idemp_l by lia. f_equal. lia.
    + destruct (IH w Hlen Hcount) as (w' & Hrun & Hc).
      { intros q j Hq. apply (Hlive q j). by right. }
      exists w'. split.
      * cbn [adds map snd]. unfold bind at 1.
        rewrite add_rejected by lia.
        unfold bind at 1. rewrite Hrun.
        by rewrite bool_decide_eq_false_2.
      * rewrite Hc. unfold accepted_slots. cbn [map snd List.filter].
        apply Nat.ltb_nlt in Hid. by rewrite Hid.
Qed.

(** A list of distinct slot numbers below the capacity has at most
    [MAX_LIDARS] elements. *)
Lemma distinct_slots_bound (l : list nat) :
  NoDup l -> (forall i, i ∈ l -> (i < MAX_LIDARS)%nat) ->
  (length l <= MAX_LIDARS)%nat.
Proof.
  intros Hnd Hlt.
  replace MAX_LIDARS with (length (seq 0 MAX_LIDARS)) by apply length_seq.
  apply NoDup_incl_length; [ by apply NoDup_ListNoDup | ].
  intros i Hi. apply in_seq. apply list_elem_of_In in Hi.
  specialize (Hlt i Hi). lia.
Qed.

(** ** The lifecycle on a sensor that answers *)

(** The sensor goes through the reset cycle and is configured; the call
    after that runs the case of ACQUISITION_READY, which calls [async], and
    has no result, nor has any later one. *)

Example lifecycle_of_a_healthy_sensor :
  map Scenario.lifecycle (seq 0 7)
  = [ Some (SHUTING_DOWN, false, 0);
      Some (NEED_RESET, false, 0);
      Some (RESET_PENDING, true, 0);
      Some (NEED_CONFIGURE, true, 0);
      Some (ACQUISITION_READY, true, 0);
      None;
      None ].
Proof. vm_compute. reflexivity. Qed.

(** * The claims *)

(** A controller with one registered sensor, for the concrete instances. *)
Lemma single_holds o : holds (Scenario.single o) 0 0%nat o.
Proof. split; reflexivity. Qed.

Lemma single_registered o : registered (Scenario.single o).
Proof.
  split.
  - intros i Hi. cbn in Hi. assert (i = 0%nat) as -> by lia.
    exists 0%nat, o. apply single_holds.
  - intros i j p Hi Hj _ _. cbn in Hi, Hj. lia.
Qed.

Lemma single_defined env o :
  defined_case env o -> defined_tick env (Scenario.single o).
Proof.
  intros Hdef i p o' Hi [Hl Hh].
  cbn in Hi. assert (i = 0%nat) as -> by lia.
  cbn in Hl. injection Hl as <-.
  cbn in Hh. rewrite lookup_singleton_eq in Hh. by injection Hh as <-.
Qed.

(** ** C1 *)

(** C1, on the code: two sensors are registered one after the other.  In the
    second call of [spinOnce] the first sensor is powered on and takes the
    latch, and the second sensor then leaves SHUTING_DOWN through
    [postReset], which clears [resetOngoing] although the first sensor is
    still waiting for its settle delay.  The third call therefore powers the
    second sensor on as well: both are powered in RESET_PENDING. *)
Theorem C1_two_sensors_powered_in_reset :
  (Scenario.sensor_view 0 ∘ snd <$> Scenario.staggered_run 2
   = Some (Some (RESET_PENDING, true))
   /\ Scenario.sensor_view 1 ∘ snd <$> Scenario.staggered_run 2
      = Some (Some (NEED_RESET, false))
   /\ resetOngoing ∘ snd <$> Scenario.staggered_run 2 = Some false)
  /\ (Scenario.sensor_view 0 ∘ snd <$> Scenario.staggered_run 3
      = Some (Some (RESET_PENDING, true))
      /\ Scenario.sensor_view 1 ∘ snd <$> Scenario.staggered_run 3
         = Some (Some (RESET_PENDING, true))
      /\ reset_powered_slots ∘ snd <$> Scenario.staggered_run 3
         = Some [0; 1]%nat).
Proof. repeat split; vm_compute; reflexivity. Qed.

(** ** C2 *)

(** C2, as amended.  A registration with slot index 8 or more returns false
    and changes nothing.  For a sequence of registrations of live sensor
    objects on a fresh controller in which the calls with an index below 8
    use pairwise different slots: exactly those calls succeed, [getCount] is
    their number, and it does not exceed 8. *)
Theorem C2_capacity_with_distinct_slots (calls : list (ptr * nat)) w :
  length (lidars w) = MAX_LIDARS ->
  count w = 0 ->
  (forall p id, (p, id) ∈ calls -> is_Some (heap w !! p)) ->
  NoDup (accepted_slots calls) ->
  (forall p id w0, (MAX_LIDARS <= id)%nat -> add p id w0 = Some (false, w0))
  /\ exists w',
       adds calls w
       = Some (map (fun c => bool_decide (snd c < MAX_LIDARS)%nat) calls, w')
       /\ getCount w' = Some (Z.of_nat (length (accepted_slots calls)), w')
       /\ 0 <= count w' <= 8.
Proof.
  intros Hlen Hzero Hlive Hnd.
  split; [ intros p id w0; apply add_rejected | ].
  destruct (adds_spec calls w Hlen) as (w' & Hrun & Hc); [ lia | done | ].
  assert (Hk : (length (accepted_slots calls) <= MAX_LIDARS)%nat).
  { apply distinct_slots_bound; [ exact Hnd | ].
    intros i Hi. apply list_elem_of_In, filter_In in Hi as [_ Hi].
    by apply Nat.ltb_lt. }
  unfold MAX_LIDARS in Hk.
  rewrite Hzero, Z.add_0_l, Z.mod_small in Hc by lia.
  exists w'. split; [ exact Hrun | ].
  split; [ | lia ].
  unfold getCount. rewrite bind_get. unfold ret. by rewrite Hc.
Qed.

(** C2, as stated, fails: nine registrations into slot 0 all succeed and
    [getCount] then returns 9. *)
Lemma C2_ninth_registration_succeeds :
  fst <$> Scenario.nine_registrations (init Scenario.two_sensors)
  = Some (replicate 9 true, 9).
Proof. vm_compute. reflexivity. Qed.

(** The theorem of C2 at a concrete input. *)
Lemma C2_witness :
  NoDup (accepted_slots [(0%nat, 0%nat); (1%nat, 1%nat); (0%nat, 9%nat)])
  /\ exists w',
       adds [(0%nat, 0%nat); (1%nat, 1%nat); (0%nat, 9%nat)]
         (init Scenario.two_sensors)
       = Some ([true; true; false], w')
       /\ getCount w' = Some (2, w').
Proof.
  assert (Hnd : NoDup (accepted_slots
                         [(0%nat, 0%nat); (1%nat, 1%nat); (0%nat, 9%nat)])).
  { vm_compute. apply NoDup_cons_2; [ | apply NoDup_singleton ].
    intros Hin. apply list_elem_of_singleton in Hin. lia. }
  split; [ exact Hnd | ].
  destruct (C2_capacity_with_distinct_slots
              [(0%nat, 0%nat); (1%nat, 1%nat); (0%nat, 9%nat)]
              (init Scenario.two_sensors))
    as (_ & w' & Hrun & Hcount & _).
  - reflexivity.
  - reflexivity.
  - intros p id Hin.
    repeat (apply elem_of_cons in Hin as [Heq | Hin];
            [ injection Heq as -> ->; eexists; reflexivity | ]).
    by apply elem_of_nil in Hin.
  - exact Hnd.
  - exists w'. split; [ exact Hrun | exact Hcount ].
Defined.

(** ** C3 *)

(** C3, on the code.  A sensor that answers is registered and goes through
    the reset cycle; after four calls of [spinOnce] it is configured and in
    ACQUISITION_READY.  The case of that state calls [async], which ends
    without a [return]: the fifth call has no defined result, and nothing
    is left of the fault check that should follow the case.  It is the same
    for a sensor in ACQUISITION_READY whose counter is at 10 on a bus that
    does not acknowledge the write of [async], where the check would have
    found the counter at 11. *)
Theorem C3_no_fault_check_after_async :
  Scenario.lifecycle 4 = Some (ACQUISITION_READY, true, 0)
  /\ Scenario.lifecycle 5 = None
  /\ spinOnce_case Scenario.unplugged 0
       (Scenario.single (Scenario.ready 0x64 10)) = None
  /\ spinOnce Scenario.unplugged (Scenario.single (Scenario.ready 0x64 10))
     = None.
Proof. repeat split; vm_compute; reflexivity. Qed.

(** ** C4 *)

(** C4.  For a sensor in ACQUISITION_PENDING whose status byte has bit 0
    clear, with [d] the value [distance] delivers for the word that is
    read: the word itself, or the word less 65536 when [int] has 16 bits
    and the word is 0x8000 or more.  When the difference of [d] and the
    stored distance is a value of [int] above the least one, so that the
    comparison does not overflow: the case stores [d] as the current
    distance, keeps the previous one as the last distance and moves to
    ACQUISITION_DONE, whether [d] is suspect or not; a suspect [d] adds
    exactly one to the fault counter, on top of what the two bus
    transactions add when they are not acknowledged.  The fault check that
    closes the iteration keeps the stored values, and leaves the object as
    the case left it when the counter does not exceed the threshold. *)
Theorem C4_suspect_reading_is_stored env w i p o :
  holds w i p o ->
  LidarObject.lidar_state o = ACQUISITION_PENDING ->
  Z.testbit (snd (status_read env w o)) 0 = false ->
  let buf := snd (distance_read env w o) in
  let d := composed env buf in
  let base := LidarObject.nacksCount o
              + counted (fst (status_read env w o))
              + counted (fst (distance_read env w o)) in
  safe_difference env d (LidarObject.distance o) ->
  d = (if wide_int env || (fst buf <? 128) then word buf
       else word buf - 65536)
  /\ exists o1 w1,
       spinOnce_case env i w = Some (tt, w1)
       /\ holds w1 i p o1
       /\ LidarObject.distance o1 = d
       /\ LidarObject.last_distance o1 = LidarObject.distance o
       /\ LidarObject.lidar_state o1 = ACQUISITION_DONE
       /\ (suspect d (LidarObject.distance o) ->
           LidarObject.nacksCount o1 = base + 1)
       /\ (~ suspect d (LidarObject.distance o) ->
           LidarObject.nacksCount o1 = base)
       /\ spinOnce_body env i w = Some (tt, fault_checked p o1 w1)
       /\ LidarObject.distance (after_fault_check o1) = d
       /\ LidarObject.last_distance (after_fault_check o1)
          = LidarObject.distance o
       /\ (LidarObject.nacksCount o1 <= MAX_NACKS ->
           after_fault_check o1 = o1).
Proof.
  intros Hholds Hst Hbit buf d base Hsafe.
  split.
  { apply composed_spec. subst buf. unfold distance_read, word_read.
    cbn [snd fst]. apply u8_range. }
  pose proof (case_pending_done env w i p o Hholds Hst Hbit Hsafe) as Hcase.
  cbv zeta in Hcase. fold buf d in Hcase.
  destruct Hholds as [Hl Hh].
  eexists _, _.
  split; [ exact Hcase | ].
  split; [ split; [ exact Hl | apply lookup_insert_eq ] | ].
  repeat (split; [ reflexivity | ]).
  split.
  { intros Hs. apply suspectb_spec in Hs. obj_simpl. by rewrite Hs. }
  split.
  { intros Hs. obj_simpl.
    destruct (suspectb d (LidarObject.distance o)) eqn:Hb.
    - exfalso. apply Hs. by apply suspectb_spec.
    - subst base. lia. }
  split.
  { eapply spinOnce_body_run; [ exact Hcase | ].
    split; [ exact Hl | apply lookup_insert_eq ]. }
  unfold after_fault_check.
  match goal with |- context [if ?b then _ else _] => destruct b eqn:Hb end.
  - repeat split. intros Hle. apply Z.ltb_lt in Hb.
    apply Z.le_ngt in Hle. destruct (Hle Hb).
  - repeat split.
Qed.

(** The theorem of C4 at a concrete input: the word 0x05DC, which is 1500,
    against a stored distance of 500. *)
Lemma C4_witness :
  Z.testbit
    (snd (status_read (Scenario.ranging 5 220)
            (Scenario.single (Scenario.measuring 0x64 500 0))
            (Scenario.measuring 0x64 500 0))) 0 = false
  /\ safe_difference (Scenario.ranging 5 220) 1500 500
  /\ exists o1 w1,
       spinOnce_case (Scenario.ranging 5 220) 0
         (Scenario.single (Scenario.measuring 0x64 500 0))
       = Some (tt, w1)
       /\ holds w1 0 0%nat o1
       /\ LidarObject.distance o1 = 1500
       /\ LidarObject.last_distance o1 = 500
       /\ LidarObject.lidar_state o1 = ACQUISITION_DONE
       /\ LidarObject.nacksCount o1 = 1.
Proof.
  assert (Hsafe : safe_difference (Scenario.ranging 5 220) 1500 500).
  { unfold safe_difference. split; [ apply Z.ltb_lt | apply Z.leb_le ];
      vm_compute; reflexivity. }
  split; [ reflexivity | ]. split; [ exact Hsafe | ].
  destruct (C4_suspect_reading_is_stored (Scenario.ranging 5 220)
              (Scenario.single (Scenario.measuring 0x64 500 0))
              0 0%nat (Scenario.measuring 0x64 500 0))
    as (_ & o1 & w1 & Hcase & Hholds & Hd & Hlast & Hst & Hsus & _).
  - apply single_holds.
  - reflexivity.
  - reflexivity.
  - exact Hsafe.
  - exists o1, w1. repeat (split; [ assumption | ]).
    rewrite Hsus; [ reflexivity | ].
    right. right. apply Z.lt_gt. apply Z.ltb_lt. vm_compute. reflexivity.
Defined.

(** ** C5 *)

(** C5.  When the shared factory address 0x62 does not answer the online
    probe, [changeAddress] returns 6; the probe is the only interaction it
    has had, so no register is read or written afterwards. *)
Theorem C5_unresponsive_factory_address env w Lidar p o :
  holds w Lidar p o ->
  bus_isOnline env (trace w) FACTORY_ADDRESS = false ->
  exists w',
    changeAddress env Lidar w = Some (6, w')
    /\ trace w' = trace w ++ [EvIsOnline FACTORY_ADDRESS]
    /\ List.filter is_register_access (trace w')
       = List.filter is_register_access (trace w).
Proof.
  intros Hholds Hoff. eexists. split.
  - by apply changeAddress_offline.
  - cbn [trace]. split; [ reflexivity | ].
    rewrite List.filter_app. cbn. apply app_nil_r.
Qed.

(** The theorem of C5 at a concrete input. *)
Lemma C5_witness :
  bus_isOnline (Scenario.dead_bus (Scenario.scripted_clock []))
    (trace (Scenario.single (Scenario.settling 0x64 0))) FACTORY_ADDRESS
  = false
  /\ exists w',
       changeAddress (Scenario.dead_bus (Scenario.scripted_clock [])) 0
         (Scenario.single (Scenario.settling 0x64 0))
       = Some (6, w')
       /\ trace w' = [EvIsOnline FACTORY_ADDRESS].
Proof.
  split; [ reflexivity | ].
  destruct (C5_unresponsive_factory_address
              (Scenario.dead_bus (Scenario.scripted_clock []))
              (Scenario.single (Scenario.settling 0x64 0))
              0 0%nat (Scenario.settling 0x64 0))
    as (w' & Hrun & Htrace & _).
  - apply single_holds.
  - reflexivity.
  - exists w'. split; [ exact Hrun | exact Htrace ].
Defined.

(** ** C6 *)

(** C6, as amended.  When both probes pass and the read of the identifier
    word is not acknowledged, [changeAddress] adds one to the fault counter
    and goes on with the buffer as the read left it: it writes the first
    byte to the first serial register, the second byte to the second, the
    target address to the address register and the party-line value, each
    to the factory address, and stops at the first of these writes that is
    not acknowledged.  It then returns the number, 1 to 4, of that write,
    having added one more to the counter; it returns 0 when all four are
    acknowledged.  [f1] to [f4] are the flags of the four writes, each at
    the history the routine has reached. *)
Theorem C6_failed_serial_read_is_counted env w Lidar p o :
  holds w Lidar p o ->
  bus_isOnline env (trace w) FACTORY_ADDRESS = true ->
  bus_isOnline env (trace w ++ [EvIsOnline FACTORY_ADDRESS])
    (LidarObject.address o) = false ->
  fst (serial_read env w o) <> 0 ->
  let a := LidarObject.address o in
  let n := LidarObject.nacksCount o in
  let b1 := fst (snd (serial_read env w o)) in
  let b2 := snd (snd (serial_read env w o)) in
  let read := [EvIsOnline FACTORY_ADDRESS; EvIsOnline a;
               EvReadWord FACTORY_ADDRESS READ_SERIAL_REGISTERS] in
  let e1 := EvWrite FACTORY_ADDRESS SERIAL1_REGISTER b1 in
  let e2 := EvWrite FACTORY_ADDRESS SERIAL2_REGISTER b2 in
  let e3 := EvWrite FACTORY_ADDRESS ADDRESS_REGISTER a in
  let e4 := EvWrite FACTORY_ADDRESS PARTY_LINE_REGISTER PARTY_LINE_OFF in
  let f1 := write_flag env (trace w ++ read)
              FACTORY_ADDRESS SERIAL1_REGISTER b1 in
  let f2 := write_flag env (trace w ++ read ++ [e1])
              FACTORY_ADDRESS SERIAL2_REGISTER b2 in
  let f3 := write_flag env (trace w ++ read ++ [e1; e2])
              FACTORY_ADDRESS ADDRESS_REGISTER a in
  let f4 := write_flag env (trace w ++ read ++ [e1; e2; e3])
              FACTORY_ADDRESS PARTY_LINE_REGISTER PARTY_LINE_OFF in
  changeAddress env Lidar w
  = if negb (f1 =? 0) then
      Some (1, counted_at w p o (n + 2) (trace w ++ read ++ [e1]))
    else if negb (f2 =? 0) then
      Some (2, counted_at w p o (n + 2) (trace w ++ read ++ [e1; e2]))
    else if negb (f3 =? 0) then
      Some (3, counted_at w p o (n + 2) (trace w ++ read ++ [e1; e2; e3]))
    else if negb (f4 =? 0) then
      Some (4, counted_at w p o (n + 2)
                 (trace w ++ read ++ [e1; e2; e3; e4]))
    else
      Some (0, counted_at w p o (n + 1)
                 (trace w ++ read ++ [e1; e2; e3; e4])).
Proof.
  destruct w as [h l r c t]. intros [Hl Hh] Hon Hfree Hnack.
  apply Z.eqb_neq in Hnack.
  unfold serial_read, word_read, serial_history, write_flag, counted_at in *.
  open_world. cbv zeta.
  run. repeat split_test; cbn [app]; solve_world.
Qed.

(** C6, as stated, fails: the read of the identifier word is not
    acknowledged, and [changeAddress] returns 0 after writing the two bytes
    it found in the buffer and then the address and the party-line value. *)
Lemma C6_failed_read_returns_success :
  fst (serial_read Scenario.deaf_serial
         (Scenario.single (Scenario.settling 0x64 0))
         (Scenario.settling 0x64 0)) = 1
  /\ Scenario.writes_of
       <$> changeAddress Scenario.deaf_serial 0
             (Scenario.single (Scenario.settling 0x64 0))
     = Some (0, [EvWrite 0x62 0x18 0xAB; EvWrite 0x62 0x19 0xCD;
                 EvWrite 0x62 0x1a 0x64; EvWrite 0x62 0x1e 0x08]).
Proof. split; vm_compute; reflexivity. Qed.

(** The theorem of C6 at a concrete input: the read fails, the four writes
    are acknowledged, the result is 0 and the counter is 1. *)
Lemma C6_witness :
  fst (serial_read Scenario.deaf_serial
         (Scenario.single (Scenario.settling 0x64 0))
         (Scenario.settling 0x64 0)) <> 0
  /\ changeAddress Scenario.deaf_serial 0
       (Scenario.single (Scenario.settling 0x64 0))
     = Some (0, counted_at (Scenario.single (Scenario.settling 0x64 0))
                  0%nat (Scenario.settling 0x64 0) 1
                  [EvIsOnline 0x62; EvIsOnline 0x64; EvReadWord 0x62 0x96;
                   EvWrite 0x62 0x18 0xAB; EvWrite 0x62 0x19 0xCD;
                   EvWrite 0x62 0x1a 0x64; EvWrite 0x62 0x1e 0x08]).
Proof.
  assert (Hnack : fst (serial_read Scenario.deaf_serial
                         (Scenario.single (Scenario.settling 0x64 0))
                         (Scenario.settling 0x64 0)) <> 0).
  { vm_compute. lia. }
  split; [ exact Hnack | ].
  rewrite (C6_failed_serial_read_is_counted Scenario.deaf_serial
             (Scenario.single (Scenario.settling 0x64 0))
             0 0%nat (Scenario.settling 0x64 0)).
  - reflexivity.
  - apply single_holds.
  - reflexivity.
  - reflexivity.
  - exact Hnack.
Defined.

(** ** C7 *)

(** C7, as amended.  In a call of [spinOnce] on a well-formed registry in
    which the case of every registered sensor is defined (no sensor is in
    ACQUISITION_READY, whose case calls [async], and no comparison of a
    reading overflows), and for every registered slot [i]: the state case
    of the slot runs once and moves the sensor's state along one edge of
    the lifecycle, or leaves it where it is when the state waits for a
    condition (SHUTING_DOWN, NEED_RESET, RESET_PENDING,
    ACQUISITION_PENDING).  The fault check of the same iteration follows:
    when the counter the case leaves does not exceed 10 the sensor ends
    the call in the state the case left, and when it does the sensor ends
    the call in SHUTING_DOWN, which is a second change of state in the
    same call when the case had moved the state. *)
Theorem C7_one_edge_then_fault_check env w i p o :
  registered w ->
  defined_tick env w ->
  (i < Z.to_nat (count w))%nat ->
  holds w i p o ->
  exists w_pre o1 w_case w_end o_end,
    forEach (seq 0 i) (spinOnce_body env) w = Some (tt, w_pre)
    /\ holds w_pre i p o
    /\ spinOnce_case env i w_pre = Some (tt, w_case)
    /\ holds w_case i p o1
    /\ advance (LidarObject.lidar_state o) (LidarObject.lidar_state o1)
    /\ spinOnce_body env i w_pre = Some (tt, fault_checked p o1 w_case)
    /\ spinOnce env w = Some (tt, w_end)
    /\ holds w_end i p o_end
    /\ (LidarObject.nacksCount o1 <= MAX_NACKS ->
        LidarObject.lidar_state o_end = LidarObject.lidar_state o1)
    /\ (MAX_NACKS < LidarObject.nacksCount o1 ->
        LidarObject.lidar_state o_end = SHUTING_DOWN).
Proof.
  intros Hreg Hdef Hi Hholds.
  destruct (spinOnce_at env w i p o Hreg Hdef Hi Hholds)
    as (w_pre & o1 & w_case & w_end & Hpre & Hholds_pre & Hcase
        & Hholds_case & Hbody & Hend & Hholds_end & _ & _ & _ & Hadv & _).
  exists w_pre, o1, w_case, w_end, (after_fault_check o1).
  repeat (split; [ assumption | ]).
  unfold after_fault_check.
  destruct (MAX_NACKS <? LidarObject.nacksCount o1) eqn:Hb.
  - apply Z.ltb_lt in Hb. split; [ lia | reflexivity ].
  - apply Z.ltb_ge in Hb. split; [ reflexivity | lia ].
Qed.

(** C7, as stated, fails: a sensor in ACQUISITION_PENDING with its counter
    at 10 reads the word 0x05DC, which is out of range.  Its case stores the
    reading and moves to ACQUISITION_DONE with the counter at 11, and the
    fault check of the same iteration forces SHUTING_DOWN: the sensor
    changes state twice in one call of [spinOnce], and what the call does
    to the state is no edge of the lifecycle. *)
Lemma C7_measured_and_reset_in_one_tick :
  Scenario.sensor_view 0 ∘ snd
    <$> spinOnce_case (Scenario.ranging 5 220) 0
          (Scenario.single (Scenario.measuring 0x64 500 10))
  = Some (Some (ACQUISITION_DONE, true))
  /\ Scenario.sensor_view 0 ∘ snd
       <$> spinOnce (Scenario.ranging 5 220)
             (Scenario.single (Scenario.measuring 0x64 500 10))
     = Some (Some (SHUTING_DOWN, false))
  /\ ~ advance ACQUISITION_PENDING SHUTING_DOWN.
Proof.
  split; [ vm_compute; reflexivity | ].
  split; [ vm_compute; reflexivity | ].
  intros [Hedge | [_ Hsame]]; [ inversion Hedge | discriminate Hsame ].
Qed.

(** The theorem of C7 at a concrete input. *)
Lemma C7_witness :
  registered (Scenario.single (Scenario.measuring 0x64 500 0))
  /\ defined_tick (Scenario.ranging 1 244)
       (Scenario.single (Scenario.measuring 0x64 500 0))
  /\ exists w_end o_end,
       spinOnce (Scenario.ranging 1 244)
         (Scenario.single (Scenario.measuring 0x64 500 0))
       = Some (tt, w_end)
       /\ holds w_end 0 0%nat o_end
       /\ LidarObject.lidar_state o_end = ACQUISITION_DONE.
Proof.
  assert (Hdef : defined_tick (Scenario.ranging 1 244)
                   (Scenario.single (Scenario.measuring 0x64 500 0))).
  { apply single_defined. split; [ discriminate | ]. intros _ t.
    unfold safe_difference.
    split; [ apply Z.ltb_lt | apply Z.leb_le ]; vm_compute; reflexivity. }
  split; [ apply single_registered | ]. split; [ exact Hdef | ].
  destruct (C7_one_edge_then_fault_check (Scenario.ranging 1 244)
              (Scenario.single (Scenario.measuring 0x64 500 0))
              0 0%nat (Scenario.measuring 0x64 500 0))
    as (w_pre & o1 & w_case & w_end & o_end & Hpre & _ & Hcase & Hholds1
        & _ & _ & Hend & Hholds & Hkeep & _).
  - apply single_registered.
  - exact Hdef.
  - cbn. lia.
  - apply single_holds.
  - exists w_end, o_end. split; [ exact Hend | ]. split; [ exact Hholds | ].
    cbn [forEach seq] in Hpre. injection Hpre as <-.
    assert (Hrun : spinOnce_case (Scenario.ranging 1 244) 0
                     (Scenario.single (Scenario.measuring 0x64 500 0))
                   = Some (tt, mkWorld
                       {[ 0%nat := LidarObject.mk 0x64 ACQUISITION_DONE 500
                                     500 0 0 true ]}
                       (Some 0%nat :: replicate 7 None) false 1
                       [EvReadByte 0x64 0x01; EvReadWord 0x64 0x8f]))
      by (vm_compute; reflexivity).
    rewrite Hrun in Hcase. injection Hcase as <-.
    destruct Hholds1 as [_ Hh1]. cbn in Hh1.
    rewrite lookup_singleton_eq in Hh1. injection Hh1 as <-.
    apply Hkeep. cbn. unfold MAX_NACKS. lia.
Defined.

(** ** C8 *)

(** C8.  When the read of the status register is not acknowledged and
    the bus layer leaves the caller's buffer alone, [status] returns the
    initial value 171, whose bit 0 is set; a sensor in ACQUISITION_PENDING
    then stays where it is: its case is that [status] call alone, and the
    iteration does not end in ACQUISITION_DONE nor touch the distance. *)
Theorem C8_failed_status_read_keeps_pending env w i p o :
  holds w i p o ->
  fst (status_read env w o) <> 0 ->
  snd (bus_readByte env (trace w) (LidarObject.address o)
         STATUS_REGISTER 171) = 171 ->
  exists w',
    status env i w = Some (171, w')
    /\ Z.testbit 171 0 = true
    /\ holds w' i p
         (LidarObject.set_nacksCount (LidarObject.nacksCount o + 1) o)
    /\ (LidarObject.lidar_state o = ACQUISITION_PENDING ->
        spinOnce_case env i w = Some (tt, w')
        /\ exists o2 w2,
             spinOnce_body env i w = Some (tt, w2)
             /\ holds w2 i p o2
             /\ LidarObject.lidar_state o2 <> ACQUISITION_DONE
             /\ LidarObject.distance o2 = LidarObject.distance o
             /\ LidarObject.last_distance o2 = LidarObject.last_distance o).
Proof.
  intros Hholds Hnack Hbuf.
  assert (Hbyte : snd (status_read env w o) = 171).
  { unfold status_read, byte_read. cbn [snd]. by rewrite Hbuf. }
  assert (Hcount : counted (fst (status_read env w o)) = 1).
  { unfold counted. apply Z.eqb_neq in Hnack. by rewrite Hnack. }
  pose proof (status_run env w i p o Hholds) as Hstatus.
  rewrite Hbyte, Hcount in Hstatus.
  eexists. split; [ exact Hstatus | ].
  split; [ reflexivity | ].
  set (o' := LidarObject.set_nacksCount _ o) in *.
  assert (Hholds' : forall r t,
            holds (mkWorld (<[p := o']> (heap w)) (lidars w) r (count w) t)
              i p o').
  { intros r t. destruct Hholds as [Hl _].
    split; [ exact Hl | apply lookup_insert_eq ]. }
  split; [ apply Hholds' | ].
  intros Hst.
  assert (Hcase : spinOnce_case env i w =
                    Some (tt, mkWorld (<[p := o']> (heap w)) (lidars w)
                                (resetOngoing w) (count w)
                                (trace w ++
                                 [EvReadByte (LidarObject.address o)
                                    STATUS_REGISTER]))).
  { rewrite (case_pending_wait env w i p o Hholds Hst).
    - by rewrite Hcount.
    - by rewrite Hbyte. }
  split; [ exact Hcase | ].
  eexists _, _. split.
  { eapply spinOnce_body_run; [ exact Hcase | apply Hholds' ]. }
  split.
  { destruct Hholds as [Hl _].
    split; [ exact Hl | apply lookup_insert_eq ]. }
  unfold after_fault_check.
  destruct (MAX_NACKS <? LidarObject.nacksCount o'); subst o'; cbn;
    rewrite ?Hst; repeat split; congruence.
Qed.

(** The theorem of C8 at a concrete input. *)
Lemma C8_witness :
  fst (status_read (Scenario.dead_bus (Scenario.scripted_clock []))
         (Scenario.single (Scenario.measuring 0x64 500 0))
         (Scenario.measuring 0x64 500 0)) <> 0
  /\ exists w',
       status (Scenario.dead_bus (Scenario.scripted_clock [])) 0
         (Scenario.single (Scenario.measuring 0x64 500 0))
       = Some (171, w').
Proof.
  assert (Hnack : fst (status_read
                         (Scenario.dead_bus (Scenario.scripted_clock []))
                         (Scenario.single (Scenario.measuring 0x64 500 0))
                         (Scenario.measuring 0x64 500 0)) <> 0).
  { vm_compute. lia. }
  split; [ exact Hnack | ].
  destruct (C8_failed_status_read_keeps_pending
              (Scenario.dead_bus (Scenario.scripted_clock []))
              (Scenario.single (Scenario.measuring 0x64 500 0))
              0 0%nat (Scenario.measuring 0x64 500 0))
    as (w' & Hrun & _).
  - apply single_holds.
  - exact Hnack.
  - reflexivity.
  - exists w'. exact Hrun.
Defined.

(** ** C9 *)

(** C9.  For a sensor in ACQUISITION_PENDING whose status byte has bit 0
    clear, when the read of the distance word is not acknowledged:
    [distance] still returns, with the flag, the value it composes from
    the buffer as the read left it, which is the word in the buffer, or
    that word less 65536 when [int] has 16 bits and the word is 0x8000 or
    more.  When the comparison of that value with the stored distance does
    not overflow, the case stores the value as the current distance, keeps
    the previous one as the last distance and moves to ACQUISITION_DONE;
    the failure shows in the fault counter alone.  The fault check that
    closes the iteration keeps the stored value. *)
Theorem C9_failed_distance_read_is_written_through env w i p o :
  holds w i p o ->
  LidarObject.lidar_state o = ACQUISITION_PENDING ->
  Z.testbit (snd (status_read env w o)) 0 = false ->
  fst (distance_read env w o) <> 0 ->
  let buf := snd (distance_read env w o) in
  let d := composed env buf in
  d = (if wide_int env || (fst buf <? 128) then word buf
       else word buf - 65536)
  /\ exists w_s w_d,
       status env i w = Some (snd (status_read env w o), w_s)
       /\ distance env i w_s = Some ((d, fst (distance_read env w o)), w_d)
       /\ (safe_difference env d (LidarObject.distance o) ->
           exists o1 w1,
             spinOnce_case env i w = Some (tt, w1)
             /\ holds w1 i p o1
             /\ LidarObject.distance o1 = d
             /\ LidarObject.last_distance o1 = LidarObject.distance o
             /\ LidarObject.lidar_state o1 = ACQUISITION_DONE
             /\ LidarObject.nacksCount o1
                = LidarObject.nacksCount o
                  + counted (fst (status_read env w o)) + 1
                  + (if suspectb d (LidarObject.distance o) then 1 else 0)
             /\ spinOnce_body env i w = Some (tt, fault_checked p o1 w1)
             /\ LidarObject.distance (after_fault_check o1) = d).
Proof.
  intros Hholds Hst Hbit Hnack buf d.
  split.
  { apply composed_spec. subst buf. unfold distance_read, word_read.
    cbn [snd fst]. apply u8_range. }
  pose proof (status_run env w i p o Hholds) as Hstatus.
  assert (Hcount : counted (fst (distance_read env w o)) = 1).
  { unfold counted. apply Z.eqb_neq in Hnack. by rewrite Hnack. }
  destruct Hholds as [Hl Hh].
  set (o_s := LidarObject.set_nacksCount _ o) in Hstatus.
  set (w_s := mkWorld _ _ _ _ _) in Hstatus.
  assert (Hholds_s : holds w_s i p o_s).
  { split; [ exact Hl | apply lookup_insert_eq ]. }
  pose proof (distance_run env w_s i p o_s Hholds_s) as Hdist.
  cbv zeta in Hdist.
  eexists w_s, _.
  split; [ exact Hstatus | ].
  split; [ exact Hdist | ].
  intros Hsafe.
  pose proof (case_pending_done env w i p o (conj Hl Hh) Hst Hbit Hsafe)
    as Hcase.
  cbv zeta in Hcase. fold buf d in Hcase. rewrite Hcount in Hcase.
  eexists _, _.
  split; [ exact Hcase | ].
  split; [ split; [ exact Hl | apply lookup_insert_eq ] | ].
  repeat (split; [ reflexivity | ]).
  split.
  - eapply spinOnce_body_run; [ exact Hcase | ].
    split; [ exact Hl | apply lookup_insert_eq ].
  - unfold after_fault_check.
    match goal with |- context [if ?b then _ else _] => destruct b end;
      reflexivity.
Qed.

(** The theorem of C9 at a concrete input: the read is not acknowledged
    and leaves 0x81 0xF4 in the buffer; on the AVR board the value is
    33268 - 65536. *)
Lemma C9_witness :
  fst (distance_read (Scenario.deaf_distance 0x81 0xF4)
         (Scenario.single (Scenario.measuring 0x64 480 0))
         (Scenario.measuring 0x64 480 0)) <> 0
  /\ composed (Scenario.deaf_distance 0x81 0xF4) (0x81, 0xF4) = -32268
  /\ exists o1 w1,
       spinOnce_case (Scenario.deaf_distance 0x81 0xF4) 0
         (Scenario.single (Scenario.measuring 0x64 480 0))
       = Some (tt, w1)
       /\ holds w1 0 0%nat o1
       /\ LidarObject.distance o1 = -32268
       /\ LidarObject.lidar_state o1 = ACQUISITION_DONE.
Proof.
  assert (Hnack : fst (distance_read (Scenario.deaf_distance 0x81 0xF4)
                         (Scenario.single (Scenario.measuring 0x64 480 0))
                         (Scenario.measuring 0x64 480 0)) <> 0).
  { vm_compute. lia. }
  split; [ exact Hnack | ]. split; [ vm_compute; reflexivity | ].
  destruct (C9_failed_distance_read_is_written_through
              (Scenario.deaf_distance 0x81 0xF4)
              (Scenario.single (Scenario.measuring 0x64 480 0))
              0 0%nat (Scenario.measuring 0x64 480 0))
    as (_ & w_s & w_d & _ & _ & Hcase).
  - apply single_holds.
  - reflexivity.
  - reflexivity.
  - exact Hnack.
  - destruct Hcase as (o1 & w1 & Hcase & Hholds & Hd & _ & Hst & _).
    { unfold safe_difference.
      split; [ apply Z.ltb_lt | apply Z.leb_le ]; vm_compute; reflexivity. }
    exists o1, w1. repeat (split; [ assumption | ]). exact Hst.
Defined.

(** ** C10 *)




(** * Further properties of the controller *)

(** ** Small operations *)

(** X1.  [setState] on slot [i] is seen through a slot [j] exactly when [j]
    points to the same object. *)
Theorem setState_other_slot w i j p q o oq s :
  holds w i p o ->
  holds w j q oq ->
  (setState i s ;; getState j) w
  = Some (if decide (p = q) then s else LidarObject.lidar_state oq,
          set_heap (<[p := LidarObject.set_lidar_state s o]> (heap w)) w).
Proof.
  destruct w as [h l r c t]. intros [Hl Hh] [Hlj Hhj]. open_world.
  rewrite run_as_bind. unfold setState, getState. exec.
  destruct (decide (p = q)) as [<- | Hne].
  - exec. reflexivity.
  - assert (Hq : <[p := LidarObject.set_lidar_state s o]> h !! q = Some oq)
      by (by rewrite lookup_insert_ne).
    unfold load. exec. unfold bind at 1, get. cbn [heap]. rewrite Hq.
    reflexivity.
Qed.

(** X2.  A preset number other than 0 to 3 makes [configure] do nothing at all,
    even on a slot that was never assigned. *)
Theorem configure_unknown_preset env w i c :
  preset c = None ->
  configure env i c w = Some (tt, w).
Proof.
  unfold preset. intros Hc.
  destruct (c =? 0) eqn:H0; [ discriminate | ].
  destruct (c =? 1) eqn:H1; [ discriminate | ].
  destruct (c =? 2) eqn:H2; [ discriminate | ].
  destruct (c =? 3) eqn:H3; [ discriminate | ].
  unfold configure. rewrite H0, H1, H2, H3.
  rewrite run_as_bind. unfold shouldIncrementNack, when. exec. reflexivity.
Qed.

(** X3.  A preset from 0 to 3 makes [configure] issue exactly one write, of the
    preset's register and value to the sensor's own address; a write that is
    not acknowledged adds one to the fault counter, and nothing else
    changes. *)
Theorem configure_defined_preset env w i p o c reg val :
  holds w i p o ->
  preset c = Some (reg, val) ->
  configure env i c w
  = Some (tt,
          mkWorld
            (<[p := LidarObject.set_nacksCount
                      (LidarObject.nacksCount o
                       + counted (u8 (bus_write env (trace w)
                                        (LidarObject.address o) reg val)))
                      o]> (heap w))
            (lidars w) (resetOngoing w) (count w)
            (trace w ++ [EvWrite (LidarObject.address o) reg val])).
Proof.
  destruct w as [h l r c0 t]. intros [Hl Hh] Hc. open_world.
  unfold preset in Hc. unfold configure.
  destruct (c =? 0); [ | destruct (c =? 1); [ | destruct (c =? 2);
    [ | destruct (c =? 3); [ | discriminate ] ] ] ];
    injection Hc as <- <-; run; split_test; solve_world.
Qed.

(** X4.  [setOffset] and [scale] issue their write and never touch the fault
    counter, whether the write is acknowledged or not. *)
Theorem setOffset_scale_not_counted env w i p o data :
  holds w i p o ->
  setOffset env i data w
  = Some (tt, set_trace (trace w ++ [EvWrite (LidarObject.address o)
                                       OFFSET_REGISTER data]) w)
  /\ scale env i data w
     = Some (tt, set_trace (trace w ++ [EvWrite (LidarObject.address o)
                                          SCALE_VELOCITY_REGISTER data]) w).
Proof.
  destruct w as [h l r c t]. intros [Hl Hh]. open_world.
  split; [ | unfold scale ]; run; reflexivity.
Qed.

(** ** Reading a distance and restarting the acquisition *)

Lemma async_undefined env i w : async env i w = None.
Proof.
  unfold async, bind.
  destruct (load i w) as [[o w1] |]; [ | reflexivity ].
  destruct (I2C_write env (LidarObject.address o) CONTROL_REGISTER 4 w1)
    as [[nack w2] |]; [ | reflexivity ].
  destruct (shouldIncrementNack i nack w2) as [[u w3] |]; reflexivity.
Qed.

(** X5.  [async] has no defined result, whatever the sensor and the bus: it is
    declared to return a value and ends without a [return].  Neither has
    [distanceAndAsync], which calls it before it returns. *)
Theorem distanceAndAsync_is_undefined env i w :
  async env i w = None /\ distanceAndAsync env i w = None.
Proof.
  split; [ apply async_undefined | ].
  unfold distanceAndAsync. unfold bind at 1.
  destruct (distance env i w) as [[r w1] |]; [ | reflexivity ].
  unfold bind at 1.
  match goal with
  | |- match ?m w1 with _ => _ end = _ =>
      destruct (m w1) as [[data w2] |]; [ | reflexivity ]
  end.
  unfold bind. by rewrite async_undefined.
Qed.

(** X6.  [distance] reads the word once, counts a read that is not
    acknowledged, and delivers with the flag the value it composes from the
    buffer as the read left it: the word, or the word less 65536 when [int]
    has 16 bits and the high byte is 0x80 or more.  The value is one [int]
    holds; composing it never overflows. *)
Theorem distance_composes_the_word env w i p o :
  holds w i p o ->
  let r := word_read env (trace w) (LidarObject.address o)
             MEASURED_VALUE_REGISTER in
  distance env i w
  = Some ((composed env (snd r), fst r),
          counted_at w p o (LidarObject.nacksCount o + counted (fst r))
            (trace w ++ [EvReadWord (LidarObject.address o)
                           MEASURED_VALUE_REGISTER]))
  /\ composed env (snd r)
     = (if wide_int env || (fst (snd r) <? 128) then word (snd r)
        else word (snd r) - 65536)
  /\ in_int env (composed env (snd r)) = true.
Proof.
  intros Hholds r.
  split; [ apply (distance_run env w i p o Hholds) | ].
  split.
  - apply composed_spec. subst r. unfold word_read. cbn [snd fst].
    apply u8_range.
  - subst r. unfold word_read, composed. cbn [snd fst].
    apply composed_fits.
Qed.

(** ** Address reassignment *)

Ltac outcome_leaf o :=
  lazymatch goal with
  | |- exists _ _ _,
        ret ?c (mkWorld (<[_ := ?o1]> _) _ _ _ (_ ++ ?evs)) = _ /\ _ =>
      exists c, o1, evs; split; [ reflexivity | ]
  | |- exists _ _ _, ret ?c (mkWorld _ _ _ _ (_ ++ ?evs)) = _ /\ _ =>
      exists c, o, evs; split; [ solve_world | ]
  end.

(** Every outcome of [changeAddress] at once: the object changes in its
    fault counter only, and the bus traffic is determined by the code. *)
Lemma changeAddress_outcome env w Lidar p o :
  holds w Lidar p o ->
  exists code o1 evs,
    changeAddress env Lidar w
    = Some (code, mkWorld (<[p := o1]> (heap w)) (lidars w) (resetOngoing w)
                    (count w) (trace w ++ evs))
    /\ LidarObject.set_nacksCount (LidarObject.nacksCount o) o1 = o
    /\ 0 <= code <= 6
    /\ LidarObject.nacksCount o <= LidarObject.nacksCount o1
       <= LidarObject.nacksCount o + 2
    /\ (code <> 0 -> LidarObject.nacksCount o + 1 <= LidarObject.nacksCount o1)
    /\ Forall (fun e => on_bus_of (LidarObject.address o) e = true) evs
    /\ Z.of_nat (length (List.filter is_bus_write evs))
       = (if code =? 0 then 4 else if code <=? 4 then code else 0)
    /\ (code = 0 ->
        evs = [EvIsOnline FACTORY_ADDRESS;
               EvIsOnline (LidarObject.address o);
               EvReadWord FACTORY_ADDRESS READ_SERIAL_REGISTERS;
               EvWrite FACTORY_ADDRESS SERIAL1_REGISTER
                 (fst (snd (serial_read env w o)));
               EvWrite FACTORY_ADDRESS SERIAL2_REGISTER
                 (snd (snd (serial_read env w o)));
               EvWrite FACTORY_ADDRESS ADDRESS_REGISTER
                 (LidarObject.address o);
               EvWrite FACTORY_ADDRESS PARTY_LINE_REGISTER PARTY_LINE_OFF]
        /\ LidarObject.nacksCount o1
           = LidarObject.nacksCount o + counted (fst (serial_read env w o))).
Proof.
  destruct w as [h l r c t]. intros [Hl Hh].
  unfold serial_read, word_read, serial_history. open_world.
  run. repeat split_test; outcome_leaf o.
  all: split; [ destruct o; reflexivity | ].
  all: obj_simpl.
  all: split; [ lia | ].
  all: split; [ lia | ].
  all: split; [ intros Hcode; lia | ].
  all: split;
    [ repeat (apply Forall_cons; split;
              [ cbn [on_bus_of]; rewrite ?Z.eqb_refl, ?orb_true_r;
                reflexivity | ]);
      apply Forall_nil; exact I | ].
  all: split; [ reflexivity | ].
  all: intros Hzero; try discriminate Hzero.
  all: split; [ reflexivity | unfold counted; solve_field ].
Qed.

(** X7.  [changeAddress] changes nothing but the fault counter of its sensor and
    the history: the target address stored in the object, the state, the
    power, the latch, the registry and every other object stay as they are.
    The counter grows by at most 2, and by at least 1 when the code is not
    0. *)
Theorem changeAddress_changes_counter_only env w Lidar p o :
  holds w Lidar p o ->
  exists code o1 w',
    changeAddress env Lidar w = Some (code, w')
    /\ 0 <= code <= 6
    /\ holds w' Lidar p o1
    /\ LidarObject.set_nacksCount (LidarObject.nacksCount o) o1 = o
    /\ LidarObject.nacksCount o <= LidarObject.nacksCount o1
       <= LidarObject.nacksCount o + 2
    /\ (code <> 0 -> LidarObject.nacksCount o < LidarObject.nacksCount o1)
    /\ lidars w' = lidars w
    /\ resetOngoing w' = resetOngoing w
    /\ count w' = count w
    /\ (forall q, q <> p -> heap w' !! q = heap w !! q).
Proof.
  intros Hholds.
  destruct (changeAddress_outcome env w Lidar p o Hholds)
    as (code & o1 & evs & Hrun & Hsame & Hcode & Hn & Hfail & _).
  destruct Hholds as [Hl Hh].
  exists code, o1. eexists. split; [ exact Hrun | ].
  cbn [heap lidars resetOngoing count].
  split; [ exact Hcode | ].
  split; [ split; [ exact Hl | apply lookup_insert_eq ] | ].
  split; [ exact Hsame | ].
  split; [ exact Hn | ].
  split; [ intros Hc; specialize (Hfail Hc); lia | ].
  repeat (split; [ reflexivity | ]).
  intros q Hq. by apply lookup_insert_ne.
Qed.

(** X8.  A return of 0 from [changeAddress] means the whole protocol went over
    the bus, in this order: the probe of the factory address, the probe of
    the target address, the read of the identifier word, the writes of its
    two bytes, of the target address and of the party-line value, all to the
    factory address.  The fault counter then shows only whether the read was
    acknowledged. *)
Theorem changeAddress_zero_is_full_protocol env w Lidar p o w' :
  holds w Lidar p o ->
  changeAddress env Lidar w = Some (0, w') ->
  trace w'
  = trace w
    ++ [EvIsOnline FACTORY_ADDRESS;
        EvIsOnline (LidarObject.address o);
        EvReadWord FACTORY_ADDRESS READ_SERIAL_REGISTERS;
        EvWrite FACTORY_ADDRESS SERIAL1_REGISTER
          (fst (snd (serial_read env w o)));
        EvWrite FACTORY_ADDRESS SERIAL2_REGISTER
          (snd (snd (serial_read env w o)));
        EvWrite FACTORY_ADDRESS ADDRESS_REGISTER (LidarObject.address o);
        EvWrite FACTORY_ADDRESS PARTY_LINE_REGISTER PARTY_LINE_OFF]
  /\ exists o1,
       holds w' Lidar p o1
       /\ LidarObject.nacksCount o1
          = LidarObject.nacksCount o + counted (fst (serial_read env w o)).
Proof.
  intros Hholds Hrun.
  destruct (changeAddress_outcome env w Lidar p o Hholds)
    as (code & o1 & evs & Hrun' & _ & _ & _ & _ & _ & _ & Hzero).
  rewrite Hrun in Hrun'. injection Hrun' as <- ->.
  destruct (Hzero eq_refl) as [-> Hn].
  split; [ reflexivity | ].
  exists o1. destruct Hholds as [Hl _].
  split; [ split; [ exact Hl | apply lookup_insert_eq ] | exact Hn ].
Qed.

(** X9.  The code of [changeAddress] tells how many register writes it made:
    four for 0, none for 5 and 6, and [k] for a code [k] from 1 to 4, the routine
    stopping at the first write that is not acknowledged.  Every bus
    transaction it makes goes to the factory address or to the sensor's
    target address. *)
Theorem changeAddress_writes_by_code env w Lidar p o code w' :
  holds w Lidar p o ->
  changeAddress env Lidar w = Some (code, w') ->
  exists evs,
    trace w' = trace w ++ evs
    /\ Z.of_nat (length (List.filter is_bus_write evs))
       = (if code =? 0 then 4 else if code <=? 4 then code else 0)
    /\ Forall (fun e => on_bus_of (LidarObject.address o) e = true) evs.
Proof.
  intros Hholds Hrun.
  destruct (changeAddress_outcome env w Lidar p o Hholds)
    as (code' & o1 & evs & Hrun' & _ & _ & _ & _ & Hbus & Hwrites & _).
  rewrite Hrun in Hrun'. injection Hrun' as -> ->.
  exists evs. split; [ reflexivity | ]. split; assumption.
Qed.

(** ** The cases of the reset cycle *)

(** X10.  RESET_PENDING and SHUTING_DOWN, timer elapsed: whatever
    [changeAddress] returns, its code is dropped; the latch is released and the sensor moves
    on, to NEED_CONFIGURE from RESET_PENDING and to NEED_RESET from
    SHUTING_DOWN, with its power and its target address as they were. *)
Theorem reset_case_ignores_the_code env w i p o next :
  holds w i p o ->
  (LidarObject.lidar_state o = RESET_PENDING /\ next = NEED_CONFIGURE)
  \/ (LidarObject.lidar_state o = SHUTING_DOWN /\ next = NEED_RESET) ->
  timer_elapsed env (trace w) p = true ->
  exists code w_c o1 w1,
    changeAddress env i (set_trace (trace w ++ [EvCheckTimer p]) w)
    = Some (code, w_c)
    /\ spinOnce_case env i w = Some (tt, w1)
    /\ holds w1 i p o1
    /\ LidarObject.lidar_state o1 = next
    /\ resetOngoing w1 = false
    /\ LidarObject.powered o1 = LidarObject.powered o
    /\ LidarObject.address o1 = LidarObject.address o.
Proof.
  intros Hholds Hst Hel.
  set (w0 := set_trace (trace w ++ [EvCheckTimer p]) w).
  assert (Hholds0 : holds w0 i p o) by (destruct w; exact Hholds).
  destruct (changeAddress_outcome env w0 i p o Hholds0)
    as (code & oc & evs & Hrun & Hsame & _).
  set (w_c := mkWorld _ _ _ _ _) in Hrun.
  assert (Hholds_c : holds w_c i p oc).
  { destruct Hholds0 as [Hl _]. split; [ exact Hl | apply lookup_insert_eq ]. }
  pose proof (case_reset_elapsed env w i p o next code w_c oc
                Hholds Hst Hel Hrun Hholds_c) as Hcase.
  exists code, w_c. eexists _, _. split; [ exact Hrun | ].
  split; [ exact Hcase | ].
  split.
  { destruct Hholds_c as [Hl _]. split; [ exact Hl | apply lookup_insert_eq ]. }
  split; [ reflexivity | ]. split; [ reflexivity | ].
  rewrite <- Hsame. split; reflexivity.
Qed.

(** X11.  RESET_PENDING and SHUTING_DOWN, timer not elapsed: the case asks the
    timer and does nothing else. *)
Theorem reset_case_waits_for_the_timer env w i p o :
  holds w i p o ->
  LidarObject.lidar_state o = RESET_PENDING
  \/ LidarObject.lidar_state o = SHUTING_DOWN ->
  timer_elapsed env (trace w) p = false ->
  spinOnce_case env i w
  = Some (tt, set_trace (trace w ++ [EvCheckTimer p]) w).
Proof.
  destruct w as [h l r c t]. intros [Hl Hh] Hst Hel. open_world.
  rewrite run_as_bind.
  unfold spinOnce_case, getState, checkTimer, postReset, setState.
  exec. destruct Hst as [Hst | Hst]; rewrite Hst; exec; reflexivity.
Qed.

(** X12.  NEED_RESET: while the latch is taken the case does nothing at all, not
    even a bus or timer access; when the latch is free the case takes it,
    switches the sensor on, arms its timer and moves to RESET_PENDING,
    without any bus transaction. *)
Theorem need_reset_case env w i p o :
  holds w i p o ->
  LidarObject.lidar_state o = NEED_RESET ->
  spinOnce_case env i w
  = Some (tt,
          if resetOngoing w then w
          else mkWorld
                 (<[p := LidarObject.set_lidar_state RESET_PENDING
                           (LidarObject.set_powered true o)]> (heap w))
                 (lidars w) true (count w)
                 (trace w ++ [EvOn p; EvTimerUpdate p])).
Proof.
  destruct w as [h l r c t]. intros [Hl Hh] Hst. open_world.
  rewrite run_as_bind.
  unfold spinOnce_case, getState, preReset, on, timerUpdate, setState.
  exec. rewrite Hst. exec. destruct r; exec; reflexivity.
Qed.

(** X13.  ACQUISITION_DONE: the case reads the signal strength into a byte that
    holds 0 beforehand, stores what the read leaves there, notifies the
    observer, writes 0 to the offset register and moves to
    ACQUISITION_READY.  It does so whether the transactions are acknowledged
    or not; only the read can add to the fault counter. *)
Theorem acquisition_done_case env w i p o :
  holds w i p o ->
  LidarObject.lidar_state o = ACQUISITION_DONE ->
  let a := LidarObject.address o in
  let r := byte_read env (trace w) a SIGNAL_STRENGTH_REGISTER 0 in
  spinOnce_case env i w
  = Some (tt,
          mkWorld
            (<[p := LidarObject.set_lidar_state ACQUISITION_READY
                      (LidarObject.set_strength (snd r)
                         (LidarObject.set_nacksCount
                            (LidarObject.nacksCount o + counted (fst r))
                            o))]> (heap w))
            (lidars w) (resetOngoing w) (count w)
            (trace w ++ [EvReadByte a SIGNAL_STRENGTH_REGISTER; EvNotify p;
                         EvWrite a OFFSET_REGISTER 0x00])).
Proof.
  destruct w as [h l r0 c t]. intros [Hl Hh] Hst a r. subst a r.
  unfold byte_read. open_world.
  rewrite run_as_bind.
  unfold spinOnce_case, getState, signalStrength, notify_distance, setOffset,
    setState, shouldIncrementNack, I2C_readByte, I2C_write, when.
  unfold_consts. exec. rewrite Hst. exec.
  split_test; solve_world.
Qed.

(** ** What one iteration can and cannot do *)

Lemma after_fault_check_sound o1 :
  LidarObject.address (after_fault_check o1) = LidarObject.address o1
  /\ LidarObject.nacksCount (after_fault_check o1) <= MAX_NACKS
  /\ (power_consistent o1 -> power_consistent (after_fault_check o1))
  /\ (rank (LidarObject.lidar_state (after_fault_check o1))
      <= rank (LidarObject.lidar_state o1))%nat.
Proof.
  unfold after_fault_check.
  destruct (MAX_NACKS <? LidarObject.nacksCount o1) eqn:Hb.
  - repeat split; [ unfold MAX_NACKS; cbn; lia | cbn; lia ].
  - apply Z.ltb_ge in Hb. repeat split; [ exact Hb | auto | lia ].
Qed.

Lemma advance_rank s s' : advance s s' -> (rank s' <= rank s + 1)%nat.
Proof.
  intros [Hedge | [_ ->]]; [ destruct Hedge; cbn; lia | lia ].
Qed.

(** The states of the reset cycle have defined cases. *)
Lemma reset_cycle_defined env o :
  (rank (LidarObject.lidar_state o) <= 3)%nat -> defined_case env o.
Proof.
  intros Hrank.
  split; intros Hst; rewrite Hst in Hrank; cbn in Hrank; lia.
Qed.

(** One call of [spinOnce] on a well-formed registry whose cases are
    defined: it has a result, keeps the registry, and for every registered
    sensor keeps the target address, leaves the fault counter at 10 or
    less, keeps the power pin consistent with the state and moves the state
    at most one step away from SHUTING_DOWN. *)
Lemma spinOnce_sound env w :
  registered w ->
  defined_tick env w ->
  exists w',
    spinOnce env w = Some (tt, w')
    /\ registered w'
    /\ lidars w' = lidars w /\ count w' = count w
    /\ forall i p o,
         (i < Z.to_nat (count w))%nat -> holds w i p o ->
         exists o',
           holds w' i p o'
           /\ LidarObject.address o' = LidarObject.address o
           /\ LidarObject.nacksCount o' <= MAX_NACKS
           /\ (power_consistent o -> power_consistent o')
           /\ (rank (LidarObject.lidar_state o')
               <= rank (LidarObject.lidar_state o) + 1)%nat.
Proof.
  intros Hreg Hdef.
  destruct (forEach_body_spec env (seq 0 (Z.to_nat (count w))) w Hreg)
    as (w' & Hrun & Hreg' & Hl & Hc & _).
  { apply NoDup_seq. }
  { intros i Hi. apply elem_of_seq in Hi. lia. }
  { intros i p o Hi Hholds. apply (Hdef i p o); [ | exact Hholds ].
    apply elem_of_seq in Hi. lia. }
  assert (Hspin : spinOnce env w = Some (tt, w')).
  { unfold spinOnce. rewrite bind_get. exact Hrun. }
  exists w'. repeat (split; [ assumption | ]).
  intros i p o Hi Hholds.
  destruct (spinOnce_at env w i p o Hreg Hdef Hi Hholds)
    as (w_pre & o1 & w_case & w_end & _ & _ & _ & _ & _ & Hend & Hholds_end
        & _ & _ & _ & Hadv & _ & Haddr & Hpow).
  rewrite Hspin in Hend. injection Hend as <-.
  destruct (after_fault_check_sound o1) as (Haddr' & Hn' & Hpow' & Hrank').
  pose proof (advance_rank _ _ Hadv) as Hrank.
  exists (after_fault_check o1).
  split; [ exact Hholds_end | ].
  split; [ congruence | ].
  split; [ exact Hn' | ].
  split; [ auto | lia ].
Qed.

(** The calls that follow a reset: while every sensor is within [k] steps of
    SHUTING_DOWN and [k + n] is at most 4, no sensor runs the case of
    ACQUISITION_READY in the next [n] calls. *)
Lemma ticks_sound env n :
  forall w k,
    registered w ->
    (forall i p o, (i < Z.to_nat (count w))%nat -> holds w i p o ->
       (rank (LidarObject.lidar_state o) <= k)%nat) ->
    (k + n <= 4)%nat ->
    exists w',
      ticks env n w = Some (tt, w')
      /\ registered w'
      /\ lidars w' = lidars w /\ count w' = count w
      /\ forall i p o,
           (i < Z.to_nat (count w))%nat -> holds w i p o ->
           exists o',
             holds w' i p o'
             /\ LidarObject.address o' = LidarObject.address o
             /\ ((0 < n)%nat -> LidarObject.nacksCount o' <= MAX_NACKS)
             /\ (power_consistent o -> power_consistent o')
             /\ (rank (LidarObject.lidar_state o') <= k + n)%nat.
Proof.
  induction n as [| n IH]; intros w k Hreg Hrank Hk.
  - exists w. split; [ reflexivity | ].
    repeat (split; [ first [ assumption | reflexivity ] | ]).
    intros i p o Hi Hholds. exists o.
    split; [ exact Hholds | ]. split; [ reflexivity | ].
    split; [ lia | ]. split; [ auto | ].
    specialize (Hrank i p o Hi Hholds). lia.
  - assert (Hdef : defined_tick env w).
    { intros i p o Hi Hholds. apply reset_cycle_defined.
      specialize (Hrank i p o Hi Hholds). lia. }
    destruct (spinOnce_sound env w Hreg Hdef)
      as (w1 & Hspin & Hreg1 & Hl1 & Hc1 & Hinv1).
    destruct (IH w1 (S k) Hreg1) as (w' & Hrun & Hreg' & Hl' & Hc' & Hinv').
    { intros i p o1 Hi [Hl Hh]. rewrite Hc1 in Hi.
      destruct (proj1 Hreg i Hi) as (q & o & Hholds).
      destruct (Hinv1 i q o Hi Hholds) as (o1' & [Hl1' Hh1'] & _ & _ & _ & Hr).
      rewrite Hl in Hl1'. injection Hl1' as <-.
      rewrite Hh in Hh1'. injection Hh1' as <-.
      specialize (Hrank i p o Hi Hholds). lia. }
    { lia. }
    exists w'. split.
    { cbn [ticks]. unfold bind. rewrite Hspin. exact Hrun. }
    split; [ exact Hreg' | ].
    split; [ congruence | ]. split; [ congruence | ].
    intros i p o Hi Hholds.
    destruct (Hinv1 i p o Hi Hholds)
      as (o1 & Hholds1 & Haddr1 & Hn1 & Hpow1 & _).
    destruct (Hinv' i p o1) as (o' & Hholds' & Haddr' & Hn' & Hpow' & Hr').
    { by rewrite Hc1. }
    { exact Hholds1. }
    exists o'. split; [ exact Hholds' | ].
    split; [ congruence | ].
    split; [ | split; [ auto | lia ] ].
    intros _. destruct n as [| n'].
    + cbn [ticks] in Hrun. injection Hrun as <-.
      destruct Hholds1 as [_ Hh1]. destruct Hholds' as [_ Hh'].
      rewrite Hh1 in Hh'. injection Hh' as <-. exact Hn1.
    + apply Hn'. lia.
Qed.

(** X14.  One iteration of the loop on slot [i], when the case of the slot's
    state is defined (the state is not ACQUISITION_READY, and the comparison
    of a reading does not overflow), leaves the registry and every object
    other than the slot's own as they are, and every bus transaction it
    makes goes to the sensor's own address or to the factory address.  It
    adds at most 3 to the fault counter before the closing check, which
    leaves the counter at 10 or less. *)
Theorem iteration_is_confined env w i p o :
  holds w i p o ->
  case_defined_at env w o ->
  exists o1 w1 o2 w2 evs,
    spinOnce_case env i w = Some (tt, w1)
    /\ holds w1 i p o1
    /\ LidarObject.nacksCount o <= LidarObject.nacksCount o1
       <= LidarObject.nacksCount o + 3
    /\ spinOnce_body env i w = Some (tt, w2)
    /\ holds w2 i p o2
    /\ LidarObject.nacksCount o2 <= MAX_NACKS
    /\ lidars w2 = lidars w
    /\ count w2 = count w
    /\ (forall q, q <> p -> heap w2 !! q = heap w !! q)
    /\ trace w2 = trace w ++ evs
    /\ Forall (fun e => on_bus_of (LidarObject.address o) e = true) evs.
Proof.
  intros Hholds Hdef.
  destruct (spinOnce_body_spec env w i p o Hholds Hdef)
    as (o1 & w1 & Hcase & Hholds1 & Hbody & Hheap & Hl1 & Hc1 & _ & Hn & _
        & _ & evs & Htrace & Hbus).
  destruct (after_fault_check_sound o1) as (_ & Hn2 & _).
  exists o1, w1, (after_fault_check o1), (fault_checked p o1 w1).
  eexists.
  repeat (split; [ assumption | ]).
  split.
  { destruct Hholds1 as [Hl _]. split; [ exact Hl | apply lookup_insert_eq ]. }
  split; [ exact Hn2 | ].
  split; [ exact Hl1 | ]. split; [ exact Hc1 | ].
  split.
  { intros q Hq. rewrite Hheap. by apply lookup_insert_ne. }
  split.
  { cbn [fault_checked trace]. rewrite Htrace, <- app_assoc. reflexivity. }
  apply Forall_app. split; [ exact Hbus | ].
  destruct (MAX_NACKS <? LidarObject.nacksCount o1);
    repeat (apply Forall_cons; split; [ reflexivity | ]); apply Forall_nil;
    exact I.
Qed.

(** ** One call of the loop *)

(** X15.  On a well-formed registry in which the case of every registered
    sensor is defined, a call of [spinOnce] has a result: no call reads an
    unassigned slot or a dead object.  The call keeps the pointer array and
    the count, and the registry stays well formed. *)
Theorem spinOnce_is_defined env w :
  registered w ->
  defined_tick env w ->
  exists w',
    spinOnce env w = Some (tt, w')
    /\ registered w'
    /\ lidars w' = lidars w
    /\ count w' = count w.
Proof.
  intros Hreg Hdef.
  destruct (spinOnce_sound env w Hreg Hdef) as (w' & Hrun & Hreg' & Hl & Hc & _).
  exists w'. auto.
Qed.

(** X16.  After such a call of [spinOnce] the fault counter of every
    registered sensor is at most 10, whatever it was before. *)
Theorem counter_is_bounded_after_a_tick env w :
  registered w ->
  defined_tick env w ->
  exists w',
    spinOnce env w = Some (tt, w')
    /\ forall i p o', (i < Z.to_nat (count w'))%nat -> holds w' i p o' ->
         LidarObject.nacksCount o' <= MAX_NACKS.
Proof.
  intros Hreg Hdef.
  destruct (spinOnce_sound env w Hreg Hdef) as (w' & Hrun & _ & Hl & Hc & Hinv).
  exists w'. split; [ exact Hrun | ].
  intros i p o' Hi [Hl' Hh'].
  rewrite Hc in Hi.
  destruct (proj1 Hreg i Hi) as (q & o & Hholds).
  destruct (Hinv i q o Hi Hholds) as (o'' & [Hl'' Hh''] & _ & Hbound & _).
  rewrite Hl' in Hl''. injection Hl'' as <-.
  rewrite Hh' in Hh''. injection Hh'' as <-.
  exact Hbound.
Qed.

(** X17.  The power pin follows the state: when every registered sensor is
    switched off exactly in SHUTING_DOWN and NEED_RESET, this is still so
    after such a call of [spinOnce]. *)
Theorem power_follows_the_state env w :
  registered w ->
  defined_tick env w ->
  (forall i p o, (i < Z.to_nat (count w))%nat -> holds w i p o ->
     power_consistent o) ->
  exists w',
    spinOnce env w = Some (tt, w')
    /\ forall i p o', (i < Z.to_nat (count w'))%nat -> holds w' i p o' ->
         power_consistent o'.
Proof.
  intros Hreg Hdef Hpow.
  destruct (spinOnce_sound env w Hreg Hdef) as (w' & Hrun & _ & Hl & Hc & Hinv).
  exists w'. split; [ exact Hrun | ].
  intros i p o' Hi [Hl' Hh'].
  rewrite Hc in Hi.
  destruct (proj1 Hreg i Hi) as (q & o & Hholds).
  destruct (Hinv i q o Hi Hholds) as (o'' & [Hl'' Hh''] & _ & _ & Hkeep & _).
  rewrite Hl' in Hl''. injection Hl'' as <-.
  rewrite Hh' in Hh''. injection Hh'' as <-.
  apply Hkeep. by apply (Hpow i p o).
Qed.

(** X18.  The controller never rewrites the target address kept in a sensor
    object: after such a call of [spinOnce], whatever [changeAddress] did
    on the bus, the object of every registered slot still holds the address
    it had. *)
Theorem target_address_is_never_rewritten env w i p o :
  registered w ->
  defined_tick env w ->
  (i < Z.to_nat (count w))%nat ->
  holds w i p o ->
  exists w' o',
    spinOnce env w = Some (tt, w')
    /\ holds w' i p o'
    /\ LidarObject.address o' = LidarObject.address o.
Proof.
  intros Hreg Hdef Hi Hholds.
  destruct (spinOnce_sound env w Hreg Hdef) as (w' & Hrun & _ & _ & _ & Hinv).
  destruct (Hinv i p o Hi Hholds) as (o' & Hholds' & Haddr & _).
  exists w', o'. auto.
Qed.

(** X24.  In every call of [spinOnce] on a well-formed registry in which
    the case of every registered sensor is defined, and for every
    registered slot [i]: once the iterations of the earlier slots are done,
    the iteration of slot [i] runs the state case and then checks the fault
    counter; when the counter the case leaves exceeds 10, the sensor is put
    into SHUTING_DOWN with its counter at 0 and its power off, and
    otherwise the check changes nothing.  The sensor is found so at the end
    of the call.  A counter that exceeds 10 when the call starts still
    does after the case. *)
Theorem fault_check_forces_reset env w i p o :
  registered w ->
  defined_tick env w ->
  (i < Z.to_nat (count w))%nat ->
  holds w i p o ->
  exists w_pre o1 w_case w_end o_end,
    forEach (seq 0 i) (spinOnce_body env) w = Some (tt, w_pre)
    /\ spinOnce_case env i w_pre = Some (tt, w_case)
    /\ holds w_case i p o1
    /\ spinOnce_body env i w_pre = Some (tt, fault_checked p o1 w_case)
    /\ holds (fault_checked p o1 w_case) i p o_end
    /\ spinOnce env w = Some (tt, w_end)
    /\ holds w_end i p o_end
    /\ (MAX_NACKS < LidarObject.nacksCount o1 ->
        LidarObject.lidar_state o_end = SHUTING_DOWN
        /\ LidarObject.nacksCount o_end = 0
        /\ LidarObject.powered o_end = false)
    /\ (LidarObject.nacksCount o1 <= MAX_NACKS -> o_end = o1)
    /\ (MAX_NACKS < LidarObject.nacksCount o ->
        MAX_NACKS < LidarObject.nacksCount o1).
Proof.
  intros Hreg Hdef Hi Hholds.
  destruct (spinOnce_at env w i p o Hreg Hdef Hi Hholds)
    as (w_pre & o1 & w_case & w_end & Hpre & Hholds_pre & Hcase
        & Hholds_case & Hbody & Hend & Hholds_end & _ & _ & _ & _ & Hmono
        & _).
  exists w_pre, o1, w_case, w_end, (after_fault_check o1).
  repeat (split; [ assumption | ]).
  split.
  { destruct Hholds_case as [Hl _].
    split; [ exact Hl | apply lookup_insert_eq ]. }
  repeat (split; [ assumption | ]).
  unfold after_fault_check.
  destruct (MAX_NACKS <? LidarObject.nacksCount o1) eqn:Hb.
  - apply Z.ltb_lt in Hb. repeat split; try reflexivity; lia.
  - apply Z.ltb_ge in Hb. repeat split; try reflexivity; lia.
Qed.

(** X26.  On an ARM board, where [int] has 32 bits, the comparison of a
    reading with a stored distance from 0 to 65535, as every reading is,
    never overflows: the case of every state but ACQUISITION_READY is
    defined. *)
Theorem no_overflow_with_wide_int env o :
  wide_int env = true ->
  0 <= LidarObject.distance o <= 65535 ->
  LidarObject.lidar_state o <> ACQUISITION_READY ->
  defined_case env o
  /\ forall w i p,
       holds w i p o ->
       exists w1, spinOnce_case env i w = Some (tt, w1).
Proof.
  intros Hwide Hrange Hready.
  assert (Hdef : defined_case env o).
  { split; [ exact Hready | ]. intros _ t.
    set (buf := snd (word_read env t (LidarObject.address o)
                       MEASURED_VALUE_REGISTER)).
    assert (Hhi : 0 <= fst buf < 256) by apply u8_range.
    assert (Hlo : 0 <= snd buf < 256) by apply u8_range.
    unfold safe_difference, INT_MIN, INT_MAX, int_bits.
    rewrite (composed_spec env buf Hhi), Hwide. cbn [orb]. unfold word.
    change (2 ^ (32 - 1)) with 2147483648. lia. }
  split; [ exact Hdef | ].
  intros w i p Hholds.
  destruct (spinOnce_case_spec env w i p o Hholds (defined_case_at env w o Hdef))
    as (o1 & r1 & evs & Hcase & _).
  eexists. exact Hcase.
Qed.

(** ** Where the loop is undefined *)

Lemma spinOnce_body_needs_the_slot env w i u w' :
  spinOnce_body env i w = Some (u, w') ->
  exists p o, holds w i p o.
Proof.
  intros Hrun.
  destruct (lidars w !! i) as [[p |] |] eqn:Hl;
    [ destruct (heap w !! p) as [o |] eqn:Hh; [ by exists p, o | ] | | ];
    exfalso; revert Hrun;
    unfold spinOnce_body, spinOnce_case, getState, load, slot, bind, get,
      ret, undefined;
    rewrite Hl; try discriminate;
    rewrite Hh; discriminate.
Qed.

Lemma forEach_body_undefined env (slots : list nat) i :
  forall w,
    i ∈ slots ->
    (forall p, lidars w !! i <> Some (Some p)) ->
    forEach slots (spinOnce_body env) w = None.
Proof.
  induction slots as [| j slots IH]; intros w Hin Hbad.
  - by apply elem_of_nil in Hin.
  - cbn [forEach]. unfold bind.
    destruct (spinOnce_body env j w) as [[u w1] |] eqn:Hbody; [ | reflexivity ].
    destruct (spinOnce_body_needs_the_slot env w j u w1 Hbody)
      as (p & o & Hholds).
    pose proof (spinOnce_body_defined env w j p o u w1 Hholds Hbody) as Hdef.
    destruct (spinOnce_body_spec env w j p o Hholds Hdef)
      as (o1 & w1' & _ & _ & Hbody' & _ & Hl1 & _).
    rewrite Hbody in Hbody'. injection Hbody' as Hw1. subst w1.
    apply elem_of_cons in Hin as [-> | Hin].
    + destruct Hholds as [Hl _]. by destruct (Hbad p).
    + apply IH; [ exact Hin | ].
      intros q. unfold fault_checked. cbn [lidars]. rewrite Hl1. apply Hbad.
Qed.

(** X19.  [spinOnce] is undefined as soon as one of the first [count] slots was
    never assigned or lies beyond the array: the loop reads
    [lidars[i]] for every [i < count] and dereferences it.  This is what
    happens after a registration into a slot other than the next free one,
    and after a ninth accepted registration. *)
Theorem spinOnce_undefined_on_a_gap env w i :
  (i < Z.to_nat (count w))%nat ->
  (forall p, lidars w !! i <> Some (Some p)) ->
  spinOnce env w = None.
Proof.
  intros Hi Hbad. unfold spinOnce. rewrite bind_get.
  apply (forEach_body_undefined env _ i); [ | exact Hbad ].
  apply elem_of_seq. lia.
Qed.

(** X25.  [spinOnce] has no defined result as soon as a registered sensor
    is in ACQUISITION_READY: the case of that state calls [async], which
    ends without a [return].  Every sensor reaches that state once it is
    configured, and again after each measurement. *)
Theorem spinOnce_undefined_in_acquisition_ready env w i p o :
  registered w ->
  (i < Z.to_nat (count w))%nat ->
  holds w i p o ->
  LidarObject.lidar_state o = ACQUISITION_READY ->
  spinOnce_case env i w = None /\ spinOnce env w = None.
Proof.
  intros Hreg Hi Hholds Hst.
  split; [ by eapply case_ready_undefined | by eapply spinOnce_ready_undefined ].
Qed.

(** ** Registration *)

(** X20.  An accepted registration stores the pointer in its slot, switches the
    sensor off and puts it in SHUTING_DOWN.  It keeps the sensor's fault
    counter and distances, the latch and every other slot. *)
Theorem add_resets_the_sensor w p id o :
  (id < MAX_LIDARS)%nat ->
  length (lidars w) = MAX_LIDARS ->
  heap w !! p = Some o ->
  exists w',
    add p id w = Some (true, w')
    /\ holds w' id p
         (LidarObject.set_lidar_state SHUTING_DOWN
            (LidarObject.set_powered false o))
    /\ resetOngoing w' = resetOngoing w
    /\ (forall j, j <> id -> lidars w' !! j = lidars w !! j)
    /\ (forall q, q <> p -> heap w' !! q = heap w !! q)
    /\ trace w' = trace w ++ [EvOff p; EvTimerUpdate p].
Proof.
  intros Hid Hlen Hp. eexists. split; [ by apply add_accepted | ].
  cbn [heap lidars resetOngoing trace].
  split.
  { split; [ apply list_lookup_insert_eq; lia | apply lookup_insert_eq ]. }
  split; [ reflexivity | ].
  split; [ intros j Hj; by apply list_lookup_insert_ne | ].
  split; [ intros q Hq; by apply lookup_insert_ne | reflexivity ].
Qed.

(** X21.  A registration of a pointer to no live object into a valid slot is
    undefined: [add] dereferences the pointer before it returns. *)
Theorem add_undefined_on_a_dead_pointer w p id :
  (id < MAX_LIDARS)%nat ->
  length (lidars w) = MAX_LIDARS ->
  heap w !! p = None ->
  add p id w = None.
Proof.
  destruct w as [h l r c t]. intros Hid Hlen Hp. open_world.
  assert (Hl : <[id := Some p]> l !! id = Some (Some p)).
  { apply list_lookup_insert_eq. lia. }
  unfold add. rewrite bool_decide_eq_false_2 by lia.
  unfold resetLidar, off, store, slot, bind, modify, get, ret, undefined.
  cbn [set_lidars lidars heap resetOngoing count trace].
  repeat (progress (cbn [lidars heap]; rewrite ?Hl, ?Hp)). reflexivity.
Qed.

Lemma adds_in_order_from (ps : list ptr) :
  forall (done : list ptr) w,
    length (lidars w) = MAX_LIDARS ->
    count w = Z.of_nat (length done) ->
    (length done + length ps <= MAX_LIDARS)%nat ->
    NoDup (done ++ ps) ->
    (forall p, p ∈ ps -> is_Some (heap w !! p)) ->
    (forall i p, done !! i = Some p ->
       lidars w !! i = Some (Some p)
       /\ exists o, heap w !! p = Some o
                    /\ LidarObject.lidar_state o = SHUTING_DOWN
                    /\ LidarObject.powered o = false) ->
    exists w',
      adds (zip ps (seq (length done) (length ps))) w
      = Some (replicate (length ps) true, w')
      /\ count w' = Z.of_nat (length (done ++ ps))
      /\ resetOngoing w' = resetOngoing w
      /\ (forall i p, (done ++ ps) !! i = Some p ->
            lidars w' !! i = Some (Some p)
            /\ exists o, heap w' !! p = Some o
                         /\ LidarObject.lidar_state o = SHUTING_DOWN
                         /\ LidarObject.powered o = false).
Proof.
  induction ps as [| p ps IH]; intros done w Hlen Hcount Hcap Hnd Hlive Hdone.
  - exists w. rewrite app_nil_r. split; [ reflexivity | ]. auto.
  - cbn [length] in Hcap.
    destruct (Hlive p) as [o Ho]; [ left | ].
    assert (Hk : (length done < MAX_LIDARS)%nat) by lia.
    pose proof (add_accepted p (length done) w o Hk Hlen Ho) as Hadd.
    set (w1 := mkWorld _ _ _ _ _) in Hadd.
    apply NoDup_app in Hnd as (Hnd_done & Hfresh & Hnd_ps).
    apply NoDup_cons in Hnd_ps as [Hp_ps Hnd_ps].
    assert (Hp_done : p ∉ done).
    { intros Hin. apply (Hfresh p Hin). left. }
    destruct (IH (done ++ [p]) w1) as (w' & Hrun & Hc' & Hr' & Hslots).
    + cbn [w1 lidars]. by rewrite length_insert.
    + cbn [w1 count]. rewrite Hcount, length_app. cbn [length]. unfold u8.
      unfold MAX_LIDARS in Hk. rewrite Z.mod_small by lia. lia.
    + rewrite length_app. cbn [length]. lia.
    + rewrite <- app_assoc. cbn [app]. apply NoDup_app.
      split; [ exact Hnd_done | ].
      split; [ exact Hfresh | ]. by apply NoDup_cons.
    + intros q Hq. cbn [w1 heap].
      destruct (decide (p = q)) as [-> | Hne].
      * rewrite lookup_insert_eq. by eexists.
      * rewrite lookup_insert_ne by done. apply Hlive. by right.
    + intros i q Hi. cbn [w1 heap lidars].
      apply lookup_app_Some in Hi as [Hi | [Hge Hi]].
      * pose proof (lookup_lt_Some _ _ _ Hi) as Hlt.
        destruct (Hdone i q Hi) as (Hl & oq & Hq & Hst & Hpow).
        split; [ rewrite list_lookup_insert_ne by lia; exact Hl | ].
        exists oq. split; [ | auto ].
        rewrite lookup_insert_ne; [ exact Hq | ].
        intros <-. apply Hp_done. by eapply list_elem_of_lookup_2.
      * apply list_lookup_singleton_Some in Hi as [Hi <-].
        assert (i = length done) as -> by lia.
        split; [ apply list_lookup_insert_eq; lia | ].
        eexists. split; [ apply lookup_insert_eq | ]. split; reflexivity.
    + exists w'. split.
      { cbn [length seq zip zip_with adds]. unfold bind at 1. rewrite Hadd.
        replace (S (length done)) with (length (done ++ [p]))
          by (rewrite length_app; cbn [length]; lia).
        unfold bind at 1. rewrite Hrun. reflexivity. }
      rewrite <- app_assoc in Hc', Hslots. cbn [app] in Hc', Hslots.
      split; [ exact Hc' | ]. split; [ exact Hr' | exact Hslots ].
Qed.

Lemma in_order_registry (ps : list ptr) (h : gmap ptr LidarObject.t) :
  NoDup ps ->
  (length ps <= MAX_LIDARS)%nat ->
  (forall p, p ∈ ps -> is_Some (h !! p)) ->
  exists w',
    adds (in_order ps) (init h) = Some (replicate (length ps) true, w')
    /\ count w' = Z.of_nat (length ps)
    /\ registered w'
    /\ resetOngoing w' = false
    /\ (forall i p, ps !! i = Some p ->
          exists o, holds w' i p o
                    /\ LidarObject.lidar_state o = SHUTING_DOWN
                    /\ LidarObject.powered o = false
                    /\ power_consistent o).
Proof.
  intros Hnd Hcap Hlive.
  destruct (adds_in_order_from ps [] (init h))
    as (w' & Hrun & Hc & Hr & Hslots); try done.
  cbn [app length] in *.
  exists w'. split; [ exact Hrun | ]. split; [ exact Hc | ].
  assert (Hn : Z.to_nat (count w') = length ps) by (rewrite Hc; lia).
  split; [ | split; [ exact Hr | ] ].
  - split.
    + intros i Hi. rewrite Hn in Hi.
      destruct (lookup_lt_is_Some_2 ps i Hi) as [p Hp].
      destruct (Hslots i p Hp) as (Hl & o & Ho & _).
      by exists p, o.
    + intros i j p Hi Hj Hli Hlj. rewrite Hn in Hi, Hj.
      destruct (lookup_lt_is_Some_2 ps i Hi) as [pi Hpi].
      destruct (lookup_lt_is_Some_2 ps j Hj) as [pj Hpj].
      destruct (Hslots i pi Hpi) as (Hli' & _).
      destruct (Hslots j pj Hpj) as (Hlj' & _).
      assert (pi = p) by congruence. assert (pj = p) by congruence.
      subst pi pj. by eapply NoDup_lookup.
  - intros i p Hp. destruct (Hslots i p Hp) as (Hl & o & Ho & Hst & Hpow).
    exists o. split; [ by split | ].
    split; [ exact Hst | ]. split; [ exact Hpow | ].
    unfold power_consistent. by rewrite Hst, Hpow.
Qed.

(** X22.  Registering pairwise different live sensor objects, at most eight of
    them, into the slots 0, 1, 2, ... in order on a fresh controller
    succeeds for each of them and gives a well-formed registry: [count] is
    their number, slot [i] holds the [i]-th object, and every sensor is
    switched off in SHUTING_DOWN. *)
Theorem registration_in_order (ps : list ptr) (h : gmap ptr LidarObject.t) :
  NoDup ps ->
  (length ps <= MAX_LIDARS)%nat ->
  (forall p, p ∈ ps -> is_Some (h !! p)) ->
  exists w',
    adds (in_order ps) (init h) = Some (replicate (length ps) true, w')
    /\ count w' = Z.of_nat (length ps)
    /\ registered w'
    /\ resetOngoing w' = false
    /\ (forall i p, ps !! i = Some p ->
          exists o, holds w' i p o
                    /\ LidarObject.lidar_state o = SHUTING_DOWN
                    /\ LidarObject.powered o = false
                    /\ power_consistent o).
Proof. apply in_order_registry. Qed.

(** X23.  The intended use composes as far as the reset cycle goes: after
    the registration of pairwise different live sensor objects, at most
    eight, into the slots 0, 1, 2, ... the first four calls of [spinOnce]
    have a result whatever the bus and the timers answer, since no sensor
    can be in ACQUISITION_READY before the fifth.  Every sensor then sits
    in its slot with the power pin consistent with its state and, once a
    call has been made, with a fault counter of at most 10. *)
Theorem registered_sensors_run_four_ticks env (ps : list ptr)
    (h : gmap ptr LidarObject.t) (n : nat) :
  NoDup ps ->
  (length ps <= MAX_LIDARS)%nat ->
  (forall p, p ∈ ps -> is_Some (h !! p)) ->
  (n <= 4)%nat ->
  exists w',
    (adds (in_order ps) ;; ticks env n) (init h) = Some (tt, w')
    /\ registered w'
    /\ count w' = Z.of_nat (length ps)
    /\ (forall i p, ps !! i = Some p ->
          exists o, holds w' i p o
                    /\ power_consistent o
                    /\ ((0 < n)%nat ->
                        LidarObject.nacksCount o <= MAX_NACKS)).
Proof.
  intros Hnd Hcap Hlive Hn.
  destruct (in_order_registry ps h Hnd Hcap Hlive)
    as (w1 & Hadds & Hc1 & Hreg1 & _ & Hslots).
  destruct (ticks_sound env n w1 0%nat Hreg1)
    as (w' & Hrun & Hreg' & _ & Hc' & Hinv).
  { intros i p o Hi [Hl Hh]. rewrite Hc1 in Hi.
    destruct (lookup_lt_is_Some_2 ps i) as [q Hq]; [ lia | ].
    destruct (Hslots i q Hq) as (oq & [Hlq Hhq] & Hst & _).
    rewrite Hl in Hlq. injection Hlq as <-.
    rewrite Hh in Hhq. injection Hhq as <-.
    rewrite Hst. cbn. lia. }
  { lia. }
  exists w'. split.
  { unfold bind. rewrite Hadds. exact Hrun. }
  split; [ exact Hreg' | ]. split; [ congruence | ].
  intros i p Hp.
  destruct (Hslots i p Hp) as (o & Hholds & _ & _ & Hpow).
  destruct (Hinv i p o) as (o' & Hholds' & _ & Hbound & Hkeep & _);
    [ | exact Hholds | ].
  { rewrite Hc1. apply lookup_lt_Some in Hp. lia. }
  exists o'. auto.
Qed.

(** ** The further properties at concrete inputs *)

Lemma single_only o0 i p o :
  (i < 1)%nat -> holds (Scenario.single o0) i p o -> o = o0.
Proof.
  intros Hi [Hl Hh]. assert (i = 0%nat) as -> by lia.
  cbn in Hl. injection Hl as <-.
  cbn in Hh. rewrite lookup_singleton_eq in Hh. by injection Hh.
Qed.

Lemma pair_holds oa ob :
  holds (Scenario.pair oa ob) 0 0%nat oa
  /\ holds (Scenario.pair oa ob) 1 1%nat ob.
Proof. repeat split. Qed.

(** X1 at a concrete input. *)
Lemma setState_other_slot_witness :
  (setState 0 ACQUISITION_READY ;; getState 1)
    (Scenario.pair (Scenario.sensor 0x64) (Scenario.sensor 0x66))
  = Some (NEED_RESET,
          set_heap (<[0%nat := LidarObject.set_lidar_state ACQUISITION_READY
                                 (Scenario.sensor 0x64)]>
                      (heap (Scenario.pair (Scenario.sensor 0x64)
                               (Scenario.sensor 0x66))))
            (Scenario.pair (Scenario.sensor 0x64) (Scenario.sensor 0x66))).
Proof.
  apply (setState_other_slot
           (Scenario.pair (Scenario.sensor 0x64) (Scenario.sensor 0x66))
           0 1 0%nat 1%nat (Scenario.sensor 0x64) (Scenario.sensor 0x66)
           ACQUISITION_READY);
    apply pair_holds.
Defined.

(** X2 at a concrete input. *)
Lemma configure_unknown_preset_witness :
  preset 7 = None
  /\ configure (Scenario.dead_bus (Scenario.scripted_clock [])) 0 7
       (Scenario.single (Scenario.sensor 0x64))
     = Some (tt, Scenario.single (Scenario.sensor 0x64)).
Proof.
  split; [ reflexivity | ].
  apply configure_unknown_preset. reflexivity.
Defined.

(** X3 at a concrete input. *)
Lemma configure_defined_preset_witness :
  preset 2 = Some (0x1c, 0x20)
  /\ exists w',
       configure Scenario.healthy 0 2 (Scenario.single (Scenario.sensor 0x64))
       = Some (tt, w')
       /\ trace w' = [EvWrite 0x64 0x1c 0x20].
Proof.
  split; [ reflexivity | ].
  eexists. split.
  - apply (configure_defined_preset Scenario.healthy
             (Scenario.single (Scenario.sensor 0x64)) 0 0%nat
             (Scenario.sensor 0x64) 2 0x1c 0x20);
      [ apply single_holds | reflexivity ].
  - reflexivity.
Defined.

(** X4 at a concrete input. *)
Lemma setOffset_scale_not_counted_witness :
  setOffset Scenario.healthy 0 0 (Scenario.single (Scenario.sensor 0x64))
  = Some (tt, set_trace [EvWrite 0x64 OFFSET_REGISTER 0]
                (Scenario.single (Scenario.sensor 0x64))).
Proof.
  apply (setOffset_scale_not_counted Scenario.healthy
           (Scenario.single (Scenario.sensor 0x64)) 0 0%nat
           (Scenario.sensor 0x64) 0).
  apply single_holds.
Defined.

(** X6 at a concrete input: the read is not acknowledged and leaves 0x81
    0xF4 in the buffer, on an AVR board. *)
Lemma distance_composes_the_word_witness :
  fst <$> distance (Scenario.deaf_distance 0x81 0xF4) 0
            (Scenario.single (Scenario.measuring 0x64 480 0))
  = Some (-32268, 1).
Proof.
  destruct (distance_composes_the_word (Scenario.deaf_distance 0x81 0xF4)
              (Scenario.single (Scenario.measuring 0x64 480 0)) 0 0%nat
              (Scenario.measuring 0x64 480 0))
    as (Hrun & _).
  - apply single_holds.
  - rewrite Hrun. reflexivity.
Defined.

(** X7 at a concrete input. *)
Lemma changeAddress_changes_counter_only_witness :
  exists code o1 w',
    changeAddress Scenario.healthy 0
      (Scenario.single (Scenario.settling 0x64 0))
    = Some (code, w')
    /\ 0 <= code <= 6
    /\ holds w' 0 0%nat o1.
Proof.
  destruct (changeAddress_changes_counter_only Scenario.healthy
              (Scenario.single (Scenario.settling 0x64 0)) 0 0%nat
              (Scenario.settling 0x64 0))
    as (code & o1 & w' & Hrun & Hcode & Hholds & _).
  - apply single_holds.
  - exists code, o1, w'. auto.
Defined.

(** X8 at a concrete input. *)
Lemma changeAddress_zero_is_full_protocol_witness :
  changeAddress Scenario.healthy 0 (Scenario.single (Scenario.settling 0x64 0))
  = Some (0, Scenario.after_full_protocol)
  /\ exists o1,
       holds Scenario.after_full_protocol 0 0%nat o1
       /\ LidarObject.nacksCount o1
          = 0 + counted (fst (serial_read Scenario.healthy
                                (Scenario.single (Scenario.settling 0x64 0))
                                (Scenario.settling 0x64 0))).
Proof.
  assert (Hrun : changeAddress Scenario.healthy 0
                   (Scenario.single (Scenario.settling 0x64 0))
                 = Some (0, Scenario.after_full_protocol)).
  { vm_compute. reflexivity. }
  split; [ exact Hrun | ].
  apply (changeAddress_zero_is_full_protocol Scenario.healthy
           (Scenario.single (Scenario.settling 0x64 0)) 0 0%nat
           (Scenario.settling 0x64 0) Scenario.after_full_protocol);
    [ apply single_holds | exact Hrun ].
Defined.

(** X9 at a concrete input. *)
Lemma changeAddress_writes_by_code_witness :
  changeAddress Scenario.healthy 0 (Scenario.single (Scenario.settling 0x64 0))
  = Some (0, Scenario.after_full_protocol)
  /\ exists evs,
       trace Scenario.after_full_protocol = [] ++ evs
       /\ Z.of_nat (length (List.filter is_bus_write evs)) = 4.
Proof.
  assert (Hrun : changeAddress Scenario.healthy 0
                   (Scenario.single (Scenario.settling 0x64 0))
                 = Some (0, Scenario.after_full_protocol)).
  { vm_compute. reflexivity. }
  split; [ exact Hrun | ].
  destruct (changeAddress_writes_by_code Scenario.healthy
              (Scenario.single (Scenario.settling 0x64 0)) 0 0%nat
              (Scenario.settling 0x64 0) 0 Scenario.after_full_protocol)
    as (evs & Htrace & Hwrites & _).
  - apply single_holds.
  - exact Hrun.
  - exists evs. split; [ exact Htrace | exact Hwrites ].
Defined.

(** X10 at a concrete input. *)
Lemma reset_case_ignores_the_code_witness :
  timer_elapsed Scenario.healthy
    (trace (Scenario.single (Scenario.settling 0x64 0))) 0%nat = true
  /\ exists o1 w1,
       spinOnce_case Scenario.healthy 0
         (Scenario.single (Scenario.settling 0x64 0)) = Some (tt, w1)
       /\ holds w1 0 0%nat o1
       /\ LidarObject.lidar_state o1 = NEED_CONFIGURE
       /\ resetOngoing w1 = false.
Proof.
  split; [ reflexivity | ].
  destruct (reset_case_ignores_the_code Scenario.healthy
              (Scenario.single (Scenario.settling 0x64 0)) 0 0%nat
              (Scenario.settling 0x64 0) NEED_CONFIGURE)
    as (code & w_c & o1 & w1 & _ & Hcase & Hholds & Hst & Hlatch & _).
  - apply single_holds.
  - left. split; reflexivity.
  - reflexivity.
  - exists o1, w1. auto.
Defined.

(** X11 at a concrete input. *)
Lemma reset_case_waits_for_the_timer_witness :
  timer_elapsed (Scenario.dead_bus (Scenario.scripted_clock []))
    (trace (Scenario.single (Scenario.settling 0x64 0))) 0%nat = false
  /\ spinOnce_case (Scenario.dead_bus (Scenario.scripted_clock [])) 0
       (Scenario.single (Scenario.settling 0x64 0))
     = Some (tt, set_trace [EvCheckTimer 0%nat]
                   (Scenario.single (Scenario.settling 0x64 0))).
Proof.
  split; [ reflexivity | ].
  apply (reset_case_waits_for_the_timer
           (Scenario.dead_bus (Scenario.scripted_clock []))
           (Scenario.single (Scenario.settling 0x64 0)) 0 0%nat
           (Scenario.settling 0x64 0));
    [ apply single_holds | left; reflexivity | reflexivity ].
Defined.

(** X12 at a concrete input. *)
Lemma need_reset_case_witness :
  exists w1,
    spinOnce_case Scenario.healthy 0 (Scenario.single (Scenario.sensor 0x64))
    = Some (tt, w1)
    /\ resetOngoing w1 = true
    /\ trace w1 = [EvOn 0%nat; EvTimerUpdate 0%nat].
Proof.
  eexists. split.
  - apply (need_reset_case Scenario.healthy
             (Scenario.single (Scenario.sensor 0x64)) 0 0%nat
             (Scenario.sensor 0x64));
      [ apply single_holds | reflexivity ].
  - split; reflexivity.
Defined.

(** X13 at a concrete input. *)
Lemma acquisition_done_case_witness :
  exists w1,
    spinOnce_case (Scenario.dead_bus (Scenario.scripted_clock [])) 0
      (Scenario.single (Scenario.measured 0x64 500))
    = Some (tt, w1)
    /\ trace w1 = [EvReadByte 0x64 SIGNAL_STRENGTH_REGISTER; EvNotify 0%nat;
                   EvWrite 0x64 OFFSET_REGISTER 0].
Proof.
  eexists. split.
  - apply (acquisition_done_case
             (Scenario.dead_bus (Scenario.scripted_clock []))
             (Scenario.single (Scenario.measured 0x64 500)) 0 0%nat
             (Scenario.measured 0x64 500));
      [ apply single_holds | reflexivity ].
  - reflexivity.
Defined.

Lemma measuring_defined hi lo addr stored nacks :
  safe_difference (Scenario.ranging hi lo)
    (composed (Scenario.ranging hi lo) (u8 hi, u8 lo)) stored ->
  defined_case (Scenario.ranging hi lo) (Scenario.measuring addr stored nacks).
Proof.
  intros Hsafe. split; [ discriminate | ]. intros _ t. exact Hsafe.
Qed.

Lemma far_reading_is_safe :
  safe_difference (Scenario.ranging 5 220)
    (composed (Scenario.ranging 5 220) (u8 5, u8 220)) 500.
Proof.
  unfold safe_difference.
  split; [ apply Z.ltb_lt | apply Z.leb_le ]; vm_compute; reflexivity.
Qed.

(** X14 at a concrete input. *)
Lemma iteration_is_confined_witness :
  case_defined_at (Scenario.ranging 5 220)
    (Scenario.single (Scenario.measuring 0x64 500 10))
    (Scenario.measuring 0x64 500 10)
  /\ exists o2 w2,
       spinOnce_body (Scenario.ranging 5 220) 0
         (Scenario.single (Scenario.measuring 0x64 500 10))
       = Some (tt, w2)
       /\ holds w2 0 0%nat o2
       /\ LidarObject.nacksCount o2 <= MAX_NACKS.
Proof.
  assert (Hdef : case_defined_at (Scenario.ranging 5 220)
                   (Scenario.single (Scenario.measuring 0x64 500 10))
                   (Scenario.measuring 0x64 500 10)).
  { apply defined_case_at, measuring_defined, far_reading_is_safe. }
  split; [ exact Hdef | ].
  destruct (iteration_is_confined (Scenario.ranging 5 220)
              (Scenario.single (Scenario.measuring 0x64 500 10)) 0 0%nat
              (Scenario.measuring 0x64 500 10))
    as (o1 & w1 & o2 & w2 & evs & _ & _ & _ & Hbody & Hholds & Hn & _).
  - apply single_holds.
  - exact Hdef.
  - exists o2, w2. auto.
Defined.

(** X15 at a concrete input. *)
Lemma spinOnce_is_defined_witness :
  defined_tick Scenario.healthy (Scenario.single (Scenario.sensor 0x64))
  /\ exists w',
       spinOnce Scenario.healthy (Scenario.single (Scenario.sensor 0x64))
       = Some (tt, w')
       /\ registered w'.
Proof.
  assert (Hdef : defined_tick Scenario.healthy
                   (Scenario.single (Scenario.sensor 0x64))).
  { apply single_defined, reset_cycle_defined. cbn. lia. }
  split; [ exact Hdef | ].
  destruct (spinOnce_is_defined Scenario.healthy
              (Scenario.single (Scenario.sensor 0x64)))
    as (w' & Hrun & Hreg & _).
  - apply single_registered.
  - exact Hdef.
  - exists w'. auto.
Defined.

(** X16 at a concrete input: the counter is at 40 before the call. *)
Lemma counter_is_bounded_after_a_tick_witness :
  defined_tick (Scenario.ranging 5 220)
    (Scenario.single (Scenario.measuring 0x64 500 40))
  /\ exists w',
       spinOnce (Scenario.ranging 5 220)
         (Scenario.single (Scenario.measuring 0x64 500 40))
       = Some (tt, w')
       /\ forall i p o', (i < Z.to_nat (count w'))%nat -> holds w' i p o' ->
            LidarObject.nacksCount o' <= MAX_NACKS.
Proof.
  assert (Hdef : defined_tick (Scenario.ranging 5 220)
                   (Scenario.single (Scenario.measuring 0x64 500 40))).
  { apply single_defined, measuring_defined, far_reading_is_safe. }
  split; [ exact Hdef | ].
  apply (counter_is_bounded_after_a_tick (Scenario.ranging 5 220)
           (Scenario.single (Scenario.measuring 0x64 500 40)));
    [ apply single_registered | exact Hdef ].
Defined.

(** X17 at a concrete input. *)
Lemma power_follows_the_state_witness :
  exists w',
    spinOnce Scenario.healthy (Scenario.single (Scenario.sensor 0x64))
    = Some (tt, w')
    /\ forall i p o', (i < Z.to_nat (count w'))%nat -> holds w' i p o' ->
         power_consistent o'.
Proof.
  apply (power_follows_the_state Scenario.healthy
           (Scenario.single (Scenario.sensor 0x64)));
    [ apply single_registered | | ].
  - apply single_defined, reset_cycle_defined. cbn. lia.
  - intros i p o Hi Hholds.
    rewrite (single_only (Scenario.sensor 0x64) i p o Hi Hholds).
    reflexivity.
Defined.

(** X18 at a concrete input. *)
Lemma target_address_is_never_rewritten_witness :
  exists w' o',
    spinOnce Scenario.healthy (Scenario.single (Scenario.settling 0x64 0))
    = Some (tt, w')
    /\ holds w' 0 0%nat o'
    /\ LidarObject.address o' = 0x64.
Proof.
  apply (target_address_is_never_rewritten Scenario.healthy
           (Scenario.single (Scenario.settling 0x64 0)) 0 0%nat
           (Scenario.settling 0x64 0));
    [ apply single_registered | | cbn; lia | apply single_holds ].
  apply single_defined, reset_cycle_defined. cbn. lia.
Defined.

(** X24 at a concrete input: the reading takes the counter from 10 to 11. *)
Lemma fault_check_forces_reset_witness :
  exists w_end o_end,
    spinOnce (Scenario.ranging 5 220)
      (Scenario.single (Scenario.measuring 0x64 500 10))
    = Some (tt, w_end)
    /\ holds w_end 0 0%nat o_end.
Proof.
  destruct (fault_check_forces_reset (Scenario.ranging 5 220)
              (Scenario.single (Scenario.measuring 0x64 500 10))
              0 0%nat (Scenario.measuring 0x64 500 10))
    as (w_pre & o1 & w_case & w_end & o_end & _ & _ & _ & _ & _ & Hend
        & Hholds & _).
  - apply single_registered.
  - apply single_defined, measuring_defined, far_reading_is_safe.
  - cbn. lia.
  - apply single_holds.
  - exists w_end, o_end. split; [ exact Hend | exact Hholds ].
Defined.

(** X25 at a concrete input. *)
Lemma spinOnce_undefined_in_acquisition_ready_witness :
  spinOnce Scenario.healthy (Scenario.single (Scenario.ready 0x64 0)) = None.
Proof.
  apply (spinOnce_undefined_in_acquisition_ready Scenario.healthy
           (Scenario.single (Scenario.ready 0x64 0)) 0 0%nat
           (Scenario.ready 0x64 0));
    [ apply single_registered | cbn; lia | apply single_holds | reflexivity ].
Defined.

(** X26 at a concrete input. *)
Lemma no_overflow_with_wide_int_witness :
  exists w1,
    spinOnce_case (Scenario.on_arm (Scenario.ranging 0x81 0xF4)) 0
      (Scenario.single (Scenario.measuring 0x64 500 0))
    = Some (tt, w1).
Proof.
  destruct (no_overflow_with_wide_int
              (Scenario.on_arm (Scenario.ranging 0x81 0xF4))
              (Scenario.measuring 0x64 500 0))
    as (_ & Hrun).
  - reflexivity.
  - cbn. lia.
  - discriminate.
  - apply (Hrun (Scenario.single (Scenario.measuring 0x64 500 0))
             0%nat 0%nat).
    apply single_holds.
Defined.

(** X19 at a concrete input. *)
Lemma spinOnce_undefined_on_a_gap_witness :
  spinOnce Scenario.healthy Scenario.gapped = None.
Proof.
  apply (spinOnce_undefined_on_a_gap Scenario.healthy Scenario.gapped 0).
  - cbn. lia.
  - intros p. discriminate.
Defined.

(** X20 at a concrete input. *)
Lemma add_resets_the_sensor_witness :
  exists w',
    add 0%nat 0 (init Scenario.two_sensors) = Some (true, w')
    /\ holds w' 0 0%nat
         (LidarObject.set_lidar_state SHUTING_DOWN
            (LidarObject.set_powered false (Scenario.sensor 0x64)))
    /\ resetOngoing w' = false.
Proof.
  destruct (add_resets_the_sensor (init Scenario.two_sensors) 0%nat 0
              (Scenario.sensor 0x64))
    as (w' & Hrun & Hholds & Hlatch & _).
  - unfold MAX_LIDARS. lia.
  - reflexivity.
  - reflexivity.
  - exists w'. auto.
Defined.

(** X21 at a concrete input. *)
Lemma add_undefined_on_a_dead_pointer_witness :
  add 5%nat 0 (init Scenario.two_sensors) = None.
Proof.
  apply add_undefined_on_a_dead_pointer.
  - unfold MAX_LIDARS. lia.
  - reflexivity.
  - reflexivity.
Defined.

Lemma two_pointers_distinct : NoDup [0%nat; 1%nat].
Proof.
  apply NoDup_cons_2; [ | apply NoDup_singleton ].
  intros Hin. apply list_elem_of_singleton in Hin. lia.
Qed.

Lemma two_pointers_live p :
  p ∈ [0%nat; 1%nat] -> is_Some (Scenario.two_sensors !! p).
Proof.
  intros Hin.
  repeat (apply elem_of_cons in Hin as [-> | Hin];
          [ eexists; reflexivity | ]).
  by apply elem_of_nil in Hin.
Qed.

(** X22 at a concrete input. *)
Lemma registration_in_order_witness :
  exists w',
    adds (in_order [0%nat; 1%nat]) (init Scenario.two_sensors)
    = Some ([true; true], w')
    /\ count w' = 2
    /\ registered w'.
Proof.
  destruct (registration_in_order [0%nat; 1%nat] Scenario.two_sensors)
    as (w' & Hrun & Hcount & Hreg & _).
  - exact two_pointers_distinct.
  - unfold MAX_LIDARS. cbn. lia.
  - exact two_pointers_live.
  - exists w'. auto.
Defined.

(** X23 at a concrete input. *)
Lemma registered_sensors_run_four_ticks_witness :
  exists w',
    (adds (in_order [0%nat; 1%nat]) ;; ticks Scenario.healthy 4)
      (init Scenario.two_sensors)
    = Some (tt, w')
    /\ registered w'.
Proof.
  destruct (registered_sensors_run_four_ticks Scenario.healthy
              [0%nat; 1%nat] Scenario.two_sensors 4)
    as (w' & Hrun & Hreg & _).
  - exact two_pointers_distinct.
  - unfold MAX_LIDARS. cbn. lia.
  - exact two_pointers_live.
  - lia.
  - exists w'. auto.
Defined.
